(** * Semtech LoRaMAC control thread of RIOT: a shallow embedding

    Source: [pkg/semtech-loramac/contrib/semtech_loramac.c].

    The file under study runs the LoRaMAC stack in a thread of its own
    (the "actor") and lets other threads drive it through IPC messages.
    The embedding keeps the C structure: one Rocq definition per C
    function, the MAC descriptor [semtech_loramac_t] as a record, the
    threads' mailboxes as a finite map from thread ids to FIFO lists, and
    the LoRaMAC engine (together with the radio driver underneath it) as an
    abstract state with one transition function per entry point that the C
    code calls. *)

From Stdlib Require Import ZArith List Lia Bool.
From stdpp Require Import base numbers list gmap relations.

Local Open Scope Z_scope.

(** ** Machine integers *)

Definition uint8 (z : Z) : Z := z mod 2 ^ 8.
Definition uint32 (z : Z) : Z := z mod 2 ^ 32.

(** The conversion [(int8_t)x] of an unsigned byte. *)
Definition int8 (z : Z) : Z :=
  let u := z mod 2 ^ 8 in if u <? 2 ^ 7 then u else u - 2 ^ 8.

Definition kernel_pid_t := Z.

(** ** Enumerations of the headers

    [LoRaMac.h], [net/loramac.h], [net/netdev.h], [semtech_loramac.h] and
    [msg.h] are not part of the sources at hand.  Their enumerations are
    rendered as inductive types whose constructors are the enumerators the
    C file names; a last constructor stands for every other value where the
    C code has a [default] branch or an [else].  The enumerators of one
    enumeration all fit in the integer types the C file stores them in
    ([uint8_t ret] at line 350, [uint16_t] for [msg.type]), so those
    conversions are the identity. *)

Inductive LoRaMacStatus_t :=
| LORAMAC_STATUS_OK
| LORAMAC_STATUS_BUSY
| LORAMAC_STATUS_DUTYCYCLE_RESTRICTED
| LORAMAC_STATUS_ERROR (n : nat).

Inductive LoRaMacEventInfoStatus_t :=
| LORAMAC_EVENT_INFO_STATUS_OK
| LORAMAC_EVENT_INFO_STATUS_ERROR (n : nat).

Inductive Mcps_t :=
| MCPS_UNCONFIRMED
| MCPS_CONFIRMED
| MCPS_MULTICAST
| MCPS_PROPRIETARY.

Inductive Mlme_t :=
| MLME_JOIN
| MLME_LINK_CHECK
| MLME_TXCW
| MLME_TXCW_1
| MLME_SCHEDULE_UPLINK.

Inductive Mib_t :=
| MIB_NETWORK_JOINED
| MIB_DEV_ADDR
| MIB_NWK_SKEY
| MIB_APP_SKEY.

Inductive loramac_join_t :=
| LORAMAC_JOIN_OTAA
| LORAMAC_JOIN_ABP
| LORAMAC_JOIN_OTHER (n : nat).

Inductive loramac_tx_mode_t :=
| LORAMAC_TX_CNF
| LORAMAC_TX_UNCNF
| LORAMAC_TX_MODE_OTHER (n : nat).

(** Modelled from the spec: the two operation states Idle and Busy of
    [mac->state] (section 4.3), under the names the C file uses;
    [semtech_loramac.h], which declares them, is not among the sources. *)
Inductive semtech_loramac_state :=
| SEMTECH_LORAMAC_STATE_IDLE
| SEMTECH_LORAMAC_STATE_BUSY.

(** Modelled from the spec: the outcomes of the public operations
    (section 6: Succeeded, Failed, Restricted, Busy, TxScheduled,
    NotJoined, DataReceived, TxDone, TxConfirmFailed), under the names the
    C file uses; the enumeration is declared in [semtech_loramac.h]. *)
Inductive semtech_loramac_ret :=
| SEMTECH_LORAMAC_JOIN_SUCCEEDED
| SEMTECH_LORAMAC_JOIN_FAILED
| SEMTECH_LORAMAC_NOT_JOINED
| SEMTECH_LORAMAC_TX_SCHEDULED
| SEMTECH_LORAMAC_TX_DONE
| SEMTECH_LORAMAC_TX_CNF_FAILED
| SEMTECH_LORAMAC_DATA_RECEIVED
| SEMTECH_LORAMAC_BUSY
| SEMTECH_LORAMAC_RESTRICTED.

(** Modelled from the spec: the message tags (section 6: ISR, RxTimeout,
    TxTimeout, TimerExpired, Command, JoinResult, LinkCheckResult, TxDone,
    TxScheduleRequest, TxConfirmFailed, RxData), under the names the C
    file uses; the macros are defined in [semtech_loramac.h]. *)
Inductive msg_type :=
| MSG_TYPE_ISR
| MSG_TYPE_RX_TIMEOUT
| MSG_TYPE_TX_TIMEOUT
| MSG_TYPE_MAC_TIMEOUT
| MSG_TYPE_LORAMAC_CMD
| MSG_TYPE_LORAMAC_JOIN
| MSG_TYPE_LORAMAC_LINK_CHECK
| MSG_TYPE_LORAMAC_TX_DONE
| MSG_TYPE_LORAMAC_TX_SCHEDULE
| MSG_TYPE_LORAMAC_TX_CNF_FAILED
| MSG_TYPE_LORAMAC_RX
| MSG_TYPE_OTHER (n : nat).

Inductive netdev_event_t :=
| NETDEV_EVENT_ISR
| NETDEV_EVENT_TX_COMPLETE
| NETDEV_EVENT_TX_TIMEOUT
| NETDEV_EVENT_RX_COMPLETE
| NETDEV_EVENT_RX_TIMEOUT
| NETDEV_EVENT_CRC_ERROR
| NETDEV_EVENT_FHSS_CHANGE_CHANNEL
| NETDEV_EVENT_CAD_DONE
| NETDEV_EVENT_CAD_DETECTED
| NETDEV_EVENT_VALID_HEADER
| NETDEV_EVENT_OTHER (n : nat).

#[global] Instance LoRaMacStatus_eq_dec : EqDecision LoRaMacStatus_t.
Proof. solve_decision. Defined.
#[global] Instance LoRaMacEventInfoStatus_eq_dec : EqDecision LoRaMacEventInfoStatus_t.
Proof. solve_decision. Defined.
#[global] Instance Mcps_eq_dec : EqDecision Mcps_t.
Proof. solve_decision. Defined.
#[global] Instance Mlme_eq_dec : EqDecision Mlme_t.
Proof. solve_decision. Defined.
#[global] Instance Mib_eq_dec : EqDecision Mib_t.
Proof. solve_decision. Defined.
#[global] Instance loramac_join_eq_dec : EqDecision loramac_join_t.
Proof. solve_decision. Defined.
#[global] Instance loramac_tx_mode_eq_dec : EqDecision loramac_tx_mode_t.
Proof. solve_decision. Defined.
#[global] Instance semtech_loramac_state_eq_dec : EqDecision semtech_loramac_state.
Proof. solve_decision. Defined.
#[global] Instance semtech_loramac_ret_eq_dec : EqDecision semtech_loramac_ret.
Proof. solve_decision. Defined.
#[global] Instance msg_type_eq_dec : EqDecision msg_type.
Proof. solve_decision. Defined.

(** ** Structures exchanged with the engine *)

(** [McpsReq_t]: the request type selects the member of the union [Req].
    [fBuffer] is a pointer: [None] is [NULL], [Some bytes] points to the
    caller's payload. *)
Inductive McpsReq_t :=
| McpsReq_Unconfirmed (fPort : Z) (fBuffer : option (list Z))
    (fBufferSize : Z) (Datarate : Z)
| McpsReq_Confirmed (fPort : Z) (fBuffer : option (list Z))
    (fBufferSize : Z) (NbTrials : Z) (Datarate : Z).

Inductive MlmeReq_t :=
| MlmeReq_Join (DevEui AppEui AppKey : list Z) (Datarate : Z)
| MlmeReq_LinkCheck.

(** [MibRequestConfirm_t] as the engine reads it on a set request: the
    member of [Param] that belongs to [Type]. *)
Inductive MibRequestConfirm_t :=
| Mib_IsNetworkJoined (b : bool)
| Mib_DevAddr (a : Z)
| Mib_NwkSKey (k : list Z)
| Mib_AppSKey (k : list Z).

Record McpsConfirm_t := {
  McpsConfirm_Status : LoRaMacEventInfoStatus_t;
  McpsConfirm_McpsRequest : Mcps_t
}.

Record McpsIndication_t := {
  McpsIndication_Status : LoRaMacEventInfoStatus_t;
  McpsIndication_McpsIndication : Mcps_t;
  FramePending : bool;
  RxData : bool;
  Buffer : list Z;
  BufferSize : Z;
  Port : Z;
  AckReceived : bool;
  Multicast : bool;
  Rssi : Z;
  RxDatarate : Z
}.

Record MlmeConfirm_t := {
  MlmeConfirm_Status : LoRaMacEventInfoStatus_t;
  MlmeConfirm_MlmeRequest : Mlme_t;
  DemodMargin : Z;
  NbGateways : Z
}.

Record MlmeIndication_t := {
  MlmeIndication_MlmeIndication : Mlme_t
}.

(** The four primitives registered by [_init_loramac]; the engine calls
    them back with the structure shown. *)
Inductive callback :=
| MacMcpsConfirm (c : McpsConfirm_t)
| MacMcpsIndication (i : McpsIndication_t)
| MacMlmeConfirm (c : MlmeConfirm_t)
| MacMlmeIndication (i : MlmeIndication_t).

(** [netdev_sx127x_lora_packet_info_t], as far as this file reads it. *)
Record netdev_sx127x_lora_packet_info_t := {
  rssi : Z;
  snr : Z
}.

(** The members of [semtech_loramac_radio_events] that this file calls,
    each with the arguments it is called with. *)
Inductive radio_event :=
| RadioTxDone
| RadioRxDone (payload : list Z) (size : Z) (rssi_ : Z) (snr_ : Z)
| RadioRxTimeout
| RadioTxTimeout
| RadioRxError
| RadioFhssChangeChannel (currentChannel : Z)
| RadioCadDone (channelActivityDetected : bool).

(** ** Messages *)

Record loramac_send_params_t := {
  params_payload : option (list Z);
  params_len : Z
}.

(** [semtech_loramac_call_t]: [func] is one of the two functions of type
    [semtech_loramac_func_t] in the file, [arg] points to its argument. *)
Inductive semtech_loramac_call_t :=
| call_join (arg : loramac_join_t)
| call_send (arg : loramac_send_params_t).

(** What [msg.content.ptr] points to. *)
Inductive msg_ptr :=
| ptr_NULL
| ptr_netdev
| ptr_callback (cb : nat)
| ptr_call (c : semtech_loramac_call_t)
| ptr_MlmeConfirm (c : MlmeConfirm_t)
| ptr_McpsIndication (i : McpsIndication_t).

(** [msg_t].  In C [content] is a union of [value] and [ptr]; every reader
    in the file reads the member that the sender of that message type
    wrote, so the two members are kept side by side. *)
Record msg_t := {
  type : msg_type;
  content_value : Z;
  content_ptr : msg_ptr
}.

Definition msg_set_type (t : msg_type) (m : msg_t) : msg_t :=
  {| type := t; content_value := content_value m; content_ptr := content_ptr m |}.
Definition msg_set_value (v : Z) (m : msg_t) : msg_t :=
  {| type := type m; content_value := v; content_ptr := content_ptr m |}.
Definition msg_set_ptr (p : msg_ptr) (m : msg_t) : msg_t :=
  {| type := type m; content_value := content_value m; content_ptr := p |}.

(** ** The MAC descriptor

    Modelled from the spec: MacContext (section 3), with the members that
    the C file reads or writes under the names it uses for them; the
    structure is declared in [semtech_loramac.h].  The member [lock] is
    left out: the embedding runs one thread at a time, so the
    [mutex_lock]/[mutex_unlock] pairs have no effect in it. *)

Record semtech_loramac_link_check_info_t := {
  demod_margin : Z;
  nb_gateways : Z;
  available : bool
}.

Record semtech_loramac_rx_data_t := {
  rx_payload : list Z;
  rx_payload_len : Z;
  rx_port : Z;
  rx_ack : bool;
  rx_multicast : bool;
  rx_rssi : Z;
  rx_datarate : Z
}.

Record semtech_loramac_t := {
  state : semtech_loramac_state;
  caller_pid : kernel_pid_t;
  port : Z;
  cnf : loramac_tx_mode_t;
  trials : Z;
  datarate : Z;
  deveui : list Z;
  appeui : list Z;
  appkey : list Z;
  devaddr : list Z;
  nwkskey : list Z;
  appskey : list Z;
  link_chk : semtech_loramac_link_check_info_t;
  rx_data : semtech_loramac_rx_data_t
}.

Definition set_state (s : semtech_loramac_state) (m : semtech_loramac_t) :=
  {| state := s; caller_pid := caller_pid m; port := port m; cnf := cnf m;
     trials := trials m; datarate := datarate m; deveui := deveui m;
     appeui := appeui m; appkey := appkey m; devaddr := devaddr m;
     nwkskey := nwkskey m; appskey := appskey m; link_chk := link_chk m;
     rx_data := rx_data m |}.

Definition set_caller_pid (p : kernel_pid_t) (m : semtech_loramac_t) :=
  {| state := state m; caller_pid := p; port := port m; cnf := cnf m;
     trials := trials m; datarate := datarate m; deveui := deveui m;
     appeui := appeui m; appkey := appkey m; devaddr := devaddr m;
     nwkskey := nwkskey m; appskey := appskey m; link_chk := link_chk m;
     rx_data := rx_data m |}.

Definition set_port (p : Z) (m : semtech_loramac_t) :=
  {| state := state m; caller_pid := caller_pid m; port := p; cnf := cnf m;
     trials := trials m; datarate := datarate m; deveui := deveui m;
     appeui := appeui m; appkey := appkey m; devaddr := devaddr m;
     nwkskey := nwkskey m; appskey := appskey m; link_chk := link_chk m;
     rx_data := rx_data m |}.

Definition set_link_chk (l : semtech_loramac_link_check_info_t)
    (m : semtech_loramac_t) :=
  {| state := state m; caller_pid := caller_pid m; port := port m; cnf := cnf m;
     trials := trials m; datarate := datarate m; deveui := deveui m;
     appeui := appeui m; appkey := appkey m; devaddr := devaddr m;
     nwkskey := nwkskey m; appskey := appskey m; link_chk := l;
     rx_data := rx_data m |}.

Definition set_rx_data (r : semtech_loramac_rx_data_t) (m : semtech_loramac_t) :=
  {| state := state m; caller_pid := caller_pid m; port := port m; cnf := cnf m;
     trials := trials m; datarate := datarate m; deveui := deveui m;
     appeui := appeui m; appkey := appkey m; devaddr := devaddr m;
     nwkskey := nwkskey m; appskey := appskey m; link_chk := link_chk m;
     rx_data := r |}.

(** [mac->link_chk.available = b] *)
Definition set_available (b : bool) (m : semtech_loramac_t) :=
  set_link_chk {| demod_margin := demod_margin (link_chk m);
                  nb_gateways := nb_gateways (link_chk m);
                  available := b |} m.

(** ** Observable events

    Every call into the engine is recorded with its arguments and its
    answer, and so are the assignments to [mac->state] and the callbacks
    the engine makes; the record is what the theorems about "no engine
    call" and "never Busy" speak about. *)

Inductive engine_call :=
| QueryTxPossible (size : Z) (st : LoRaMacStatus_t)
| McpsRequest (r : McpsReq_t) (st : LoRaMacStatus_t)
| MlmeRequest (r : MlmeReq_t) (st : LoRaMacStatus_t)
| MibSetRequestConfirm (r : MibRequestConfirm_t)
| MibGetRequestConfirm (t : Mib_t)
| GetDr
| SetNetid (id : Z)
| Initialization
| RadioEvent (r : radio_event)
| TimerCallback (cb : nat)
| DriverIsr
| DriverSetSleep
| DriverRecvSize (len : Z)
| DriverRecv (len : Z) (radio_payload : list Z)
    (packet_info : netdev_sx127x_lora_packet_info_t).

Inductive event :=
| EvEngine (c : engine_call)
| EvState (s : semtech_loramac_state)
| EvCallback (c : callback).

Definition engine_calls (tr : list event) : list engine_call :=
  omap (fun e => match e with EvEngine c => Some c | _ => None end) tr.

Definition state_writes (tr : list event) : list semtech_loramac_state :=
  omap (fun e => match e with EvState s => Some s | _ => None end) tr.

Definition callbacks_of (tr : list event) : list callback :=
  omap (fun e => match e with EvCallback c => Some c | _ => None end) tr.

(** ** The engine interface

    The LoRaMAC engine and the SX127x driver below it are external to the
    file.  Their state is an abstract type; each entry point the C code
    calls is a transition on it.  Entry points that run engine code on
    behalf of the radio or of a timer answer with the list of primitives
    ([callback]) the engine invokes while it runs.

    [semtech_loramac_get_dr], [semtech_loramac_set_netid] and the setters
    called by [_init_loramac] are defined in [semtech_loramac_getset.c],
    which is not among the sources; they are taken as operations of the
    interface as well. *)

Class LoRaMac (engine : Type) := {
  LoRaMacInitialization : engine -> LoRaMacStatus_t * engine;
  LoRaMacQueryTxPossible : Z -> engine -> LoRaMacStatus_t * engine;
  LoRaMacMcpsRequest : McpsReq_t -> engine -> LoRaMacStatus_t * engine;
  LoRaMacMlmeRequest : MlmeReq_t -> engine -> LoRaMacStatus_t * engine;
  LoRaMacMibSetRequestConfirm : MibRequestConfirm_t -> engine -> engine;
  (** what a get request of type [MIB_NETWORK_JOINED] stores in
      [Param.IsNetworkJoined] *)
  LoRaMacMibGetRequestConfirm_IsNetworkJoined : engine -> bool;
  (** [semtech_loramac_radio_events.X(...)] *)
  radio_events : radio_event -> engine -> list callback * engine;
  (** the function pointer carried by a [MSG_TYPE_MAC_TIMEOUT] message *)
  timer_callback : nat -> engine -> list callback * engine;
  (** [dev->driver->isr(dev)]: the driver reports netdev events *)
  driver_isr : engine -> list netdev_event_t * engine;
  (** [dev->driver->recv(dev, NULL, 0, 0)]: the size of the frame the
      radio holds, as the [size_t] it is assigned to *)
  driver_recv_size : engine -> Z * engine;
  (** [dev->driver->recv(dev, radio_payload, len, &packet_info)]: what
      [radio_payload] and [packet_info] hold afterwards *)
  driver_recv :
    Z -> engine -> (list Z * netdev_sx127x_lora_packet_info_t) * engine;
  (** the members [last_channel] and [is_last_cad_success] of
      [((sx127x_t * )dev)->_internal] *)
  last_channel : engine -> Z;
  is_last_cad_success : engine -> bool;
  sx127x_set_sleep : engine -> engine;
  semtech_loramac_get_dr : engine -> Z;
  semtech_loramac_set_netid : Z -> engine -> engine;
  (** lines 325-330 of [_init_loramac]: the six default setters *)
  semtech_loramac_set_defaults :
    semtech_loramac_t -> engine -> semtech_loramac_t * engine
}.

(** What the build and the run-time system fix for the file. *)
Class Platform := {
  (** [semtech_loramac_pid]: the thread that runs the event loop *)
  semtech_loramac_pid : kernel_pid_t;
  (** the numeric values of the enumerators of [semtech_loramac_ret] *)
  code : semtech_loramac_ret -> Z;
  LORAMAC_DEFAULT_NETID : Z;
  (** Locals that C declares without initialising them hold indeterminate
      values: [uninit_msg] is the content of a fresh [msg_t], [uninit_fPort]
      that of the [fPort] member of a fresh [McpsReq_t]. *)
  uninit_msg : msg_t;
  uninit_fPort : Z
}.

Section Actor.

Context {engine : Type} `{!LoRaMac engine} `{!Platform}.

(** An outcome converted to the [uint8_t] the API functions return. *)
Definition ret8 (r : semtech_loramac_ret) : Z := uint8 (code r).

(** *** The state of the whole system *)

Record world := World {
  mac : semtech_loramac_t;
  eng : engine;
  (** mailbox of every thread, oldest message first *)
  mbox : gmap Z (list msg_t);
  trace : list event
}.

Definition with_mac (m : semtech_loramac_t) (w : world) : world :=
  {| mac := m; eng := eng w; mbox := mbox w; trace := trace w |}.
Definition with_eng (e : engine) (w : world) : world :=
  {| mac := mac w; eng := e; mbox := mbox w; trace := trace w |}.
Definition with_mbox (b : gmap Z (list msg_t)) (w : world) : world :=
  {| mac := mac w; eng := eng w; mbox := b; trace := trace w |}.
Definition with_trace (t : list event) (w : world) : world :=
  {| mac := mac w; eng := eng w; mbox := mbox w; trace := t |}.

(** Messages waiting for thread [pid]. *)
Definition queue (pid : kernel_pid_t) (w : world) : list msg_t :=
  default [] (mbox w !! pid).

(** *** A state monad over [world] *)

Definition M (A : Type) : Type := world -> A * world.

Definition mret {A} (a : A) : M A := fun w => (a, w).
Definition mbind {A B} (c : M A) (k : A -> M B) : M B :=
  fun w => let (a, w') := c w in k a w'.

Notation "'let*' x ':=' c 'in' k" := (mbind c (fun x => k))
  (at level 10, x name, c at level 100, k at level 200).
Notation "'run' c 'then' k" := (mbind c (fun _ => k))
  (at level 10, c at level 100, k at level 200).

Definition exec {A} (c : M A) (w : world) : world := snd (c w).
Definition eval {A} (c : M A) (w : world) : A := fst (c w).

Definition log (e : event) : M unit :=
  fun w => (tt, with_trace (trace w ++ [e]) w).

Definition read_mac {A} (f : semtech_loramac_t -> A) : M A :=
  fun w => (f (mac w), w).

Definition write_mac (f : semtech_loramac_t -> semtech_loramac_t) : M unit :=
  fun w => (tt, with_mac (f (mac w)) w).

(** [mac->state = s] *)
Definition assign_state (s : semtech_loramac_state) : M unit :=
  run write_mac (set_state s) then log (EvState s).

(** A call into the engine that answers with a value. *)
Definition engine_call_ret {A} (f : engine -> A * engine)
    (ev : A -> engine_call) : M A :=
  fun w => let (a, e') := f (eng w) in
           (a, with_trace (trace w ++ [EvEngine (ev a)]) (with_eng e' w)).

(** A call into the engine that only changes it. *)
Definition engine_call_void (f : engine -> engine) (ev : engine_call) : M unit :=
  fun w => (tt, with_trace (trace w ++ [EvEngine ev]) (with_eng (f (eng w)) w)).

(** A read of a member of the device structure: no call is made. *)
Definition read_eng {A} (f : engine -> A) : M A :=
  fun w => (f (eng w), w).

(** A read of the engine's state. *)
Definition engine_call_get {A} (f : engine -> A) (ev : engine_call) : M A :=
  fun w => (f (eng w), with_trace (trace w ++ [EvEngine ev]) w).

(** Modelled from the spec: the mailbox of section 4.1, a FIFO with many
    producers and one consumer ([msg.h] and its implementation are not
    among the sources).  [msg_send(&m, pid)] puts the message at the end
    of the mailbox of [pid].  The bound of the mailbox and the loss of a
    message posted to a full one are left out: no statement of this file
    is about a full mailbox. *)
Definition msg_send (m : msg_t) (pid : kernel_pid_t) : M unit :=
  fun w => (tt, with_mbox (<[pid := queue pid w ++ [m]]> (mbox w)) w).

(** [msg_send(&m, mac->caller_pid)] *)
Definition msg_send_caller (m : msg_t) : M unit :=
  fun w => msg_send m (caller_pid (mac w)) w.

(** Modelled from the spec: the blocking receive of the mailbox.
    [msg_receive(&m)] in thread [pid] takes the oldest message; [None]
    stands for a thread that stays blocked. *)
Definition msg_receive (pid : kernel_pid_t) (w : world) : option (msg_t * world) :=
  match queue pid w with
  | [] => None
  | m :: q => Some (m, with_mbox (<[pid := q]> (mbox w)) w)
  end.

Fixpoint mapM_ {A} (f : A -> M unit) (l : list A) : M unit :=
  match l with
  | [] => mret tt
  | x :: l' => run f x then mapM_ f l'
  end.

(** *** [_semtech_loramac_send] (lines 93-149) *)

Definition _semtech_loramac_send (payload : option (list Z)) (len : Z) : M bool :=
  let* dr0 := engine_call_get semtech_loramac_get_dr GetDr in
  let dr := uint8 dr0 in
  let* q := engine_call_ret (LoRaMacQueryTxPossible len) (QueryTxPossible len) in
  let* m := read_mac id in
  let mcpsReq :=
    if decide (q <> LORAMAC_STATUS_OK) then
      (* Send empty frame in order to flush MAC commands *)
      McpsReq_Unconfirmed uninit_fPort None 0 (int8 dr)
    else if decide (cnf m = LORAMAC_TX_UNCNF) then
      McpsReq_Unconfirmed (port m) payload len (int8 dr)
    else
      McpsReq_Confirmed (port m) payload len (trials m) (int8 dr) in
  let* ret := engine_call_ret (LoRaMacMcpsRequest mcpsReq) (McpsRequest mcpsReq) in
  match ret with
  | LORAMAC_STATUS_OK => mret false
  | LORAMAC_STATUS_BUSY
  | LORAMAC_STATUS_DUTYCYCLE_RESTRICTED
  | LORAMAC_STATUS_ERROR _ =>
      run assign_state SEMTECH_LORAMAC_STATE_IDLE then mret true
  end.

(** *** The primitives called back by the engine (lines 152-304) *)

Definition mcps_confirm (confirm : McpsConfirm_t) : M unit :=
  if decide (McpsConfirm_Status confirm = LORAMAC_EVENT_INFO_STATUS_OK) then
    match McpsConfirm_McpsRequest confirm with
    | MCPS_UNCONFIRMED =>
        msg_send (msg_set_type MSG_TYPE_LORAMAC_TX_DONE uninit_msg)
                 semtech_loramac_pid
    | MCPS_CONFIRMED => mret tt
    | MCPS_PROPRIETARY => mret tt
    | MCPS_MULTICAST => mret tt
    end
  else
    msg_send (msg_set_type MSG_TYPE_LORAMAC_TX_CNF_FAILED uninit_msg)
             semtech_loramac_pid.

Definition mcps_indication (indication : McpsIndication_t) : M unit :=
  if decide (McpsIndication_Status indication <> LORAMAC_EVENT_INFO_STATUS_OK) then
    mret tt
  else
    run (if FramePending indication then
           msg_send (msg_set_type MSG_TYPE_LORAMAC_TX_SCHEDULE uninit_msg)
                    semtech_loramac_pid
         else mret tt)
    then
      let msg :=
        if RxData indication then
          msg_set_ptr (ptr_McpsIndication indication)
            (msg_set_type MSG_TYPE_LORAMAC_RX uninit_msg)
        else msg_set_type MSG_TYPE_LORAMAC_TX_DONE uninit_msg in
      msg_send msg semtech_loramac_pid.

Definition mlme_indication (mlmeIndication : MlmeIndication_t) : M unit :=
  match MlmeIndication_MlmeIndication mlmeIndication with
  | MLME_SCHEDULE_UPLINK =>
      msg_send (msg_set_type MSG_TYPE_LORAMAC_TX_SCHEDULE uninit_msg)
               semtech_loramac_pid
  | _ => mret tt
  end.

Definition mlme_confirm (confirm : MlmeConfirm_t) : M unit :=
  match MlmeConfirm_MlmeRequest confirm with
  | MLME_JOIN =>
      if decide (MlmeConfirm_Status confirm = LORAMAC_EVENT_INFO_STATUS_OK) then
        msg_send (msg_set_value (uint32 (code SEMTECH_LORAMAC_JOIN_SUCCEEDED))
                    (msg_set_type MSG_TYPE_LORAMAC_JOIN uninit_msg))
                 semtech_loramac_pid
      else
        msg_send (msg_set_value (uint32 (code SEMTECH_LORAMAC_JOIN_FAILED))
                    (msg_set_type MSG_TYPE_LORAMAC_JOIN uninit_msg))
                 semtech_loramac_pid
  | MLME_LINK_CHECK =>
      (* no [break] after the [if]: control falls into [default], which
         only breaks *)
      if decide (MlmeConfirm_Status confirm = LORAMAC_EVENT_INFO_STATUS_OK) then
        msg_send (msg_set_ptr (ptr_MlmeConfirm confirm)
                    (msg_set_type MSG_TYPE_LORAMAC_LINK_CHECK uninit_msg))
                 semtech_loramac_pid
      else mret tt
  | _ => mret tt
  end.

(** The engine invokes one of the registered primitives. *)
Definition run_callback (c : callback) : M unit :=
  run log (EvCallback c) then
  match c with
  | MacMcpsConfirm c => mcps_confirm c
  | MacMcpsIndication i => mcps_indication i
  | MacMlmeConfirm c => mlme_confirm c
  | MacMlmeIndication i => mlme_indication i
  end.

(** Engine code runs and calls back. *)
Definition engine_run (f : engine -> list callback * engine)
    (ev : engine_call) : M unit :=
  let* cbs := engine_call_ret f (fun _ => ev) in mapM_ run_callback cbs.

(** *** Join procedures (lines 334-430) *)

Definition _join_otaa : M unit :=
  run engine_call_void (LoRaMacMibSetRequestConfirm (Mib_IsNetworkJoined false))
        (MibSetRequestConfirm (Mib_IsNetworkJoined false)) then
  let* m := read_mac id in
  let mlmeReq := MlmeReq_Join (deveui m) (appeui m) (appkey m) (datarate m) in
  let* ret := engine_call_ret (LoRaMacMlmeRequest mlmeReq) (MlmeRequest mlmeReq) in
  match ret with
  | LORAMAC_STATUS_OK => mret tt
  | LORAMAC_STATUS_DUTYCYCLE_RESTRICTED =>
      msg_send (msg_set_value (uint32 (code SEMTECH_LORAMAC_RESTRICTED))
                  (msg_set_type MSG_TYPE_LORAMAC_JOIN uninit_msg))
               semtech_loramac_pid
  | LORAMAC_STATUS_BUSY
  | LORAMAC_STATUS_ERROR _ =>
      msg_send (msg_set_value (uint32 (code SEMTECH_LORAMAC_JOIN_FAILED))
                  (msg_set_type MSG_TYPE_LORAMAC_JOIN uninit_msg))
               semtech_loramac_pid
  end.

(** [(uint32_t)devaddr[0] << 24 | ... | (uint32_t)devaddr[3]] *)
Definition devaddr_word (d : list Z) : Z :=
  Z.lor (Z.lor (Z.lor (uint32 (Z.shiftl (nth 0 d 0) 24))
                      (uint32 (Z.shiftl (nth 1 d 0) 16)))
               (uint32 (Z.shiftl (nth 2 d 0) 8)))
        (nth 3 d 0).

Definition _join_abp : M unit :=
  run engine_call_void (semtech_loramac_set_netid LORAMAC_DEFAULT_NETID)
        (SetNetid LORAMAC_DEFAULT_NETID) then
  run engine_call_void (LoRaMacMibSetRequestConfirm (Mib_IsNetworkJoined false))
        (MibSetRequestConfirm (Mib_IsNetworkJoined false)) then
  let* m := read_mac id in
  run engine_call_void (LoRaMacMibSetRequestConfirm (Mib_DevAddr (devaddr_word (devaddr m))))
        (MibSetRequestConfirm (Mib_DevAddr (devaddr_word (devaddr m)))) then
  run engine_call_void (LoRaMacMibSetRequestConfirm (Mib_NwkSKey (nwkskey m)))
        (MibSetRequestConfirm (Mib_NwkSKey (nwkskey m))) then
  run engine_call_void (LoRaMacMibSetRequestConfirm (Mib_AppSKey (appskey m)))
        (MibSetRequestConfirm (Mib_AppSKey (appskey m))) then
  run engine_call_void (LoRaMacMibSetRequestConfirm (Mib_IsNetworkJoined true))
        (MibSetRequestConfirm (Mib_IsNetworkJoined true)) then
  (* switch back to idle state now *)
  assign_state SEMTECH_LORAMAC_STATE_IDLE.

Definition _join (join_type : loramac_join_t) : M unit :=
  match join_type with
  | LORAMAC_JOIN_OTAA => _join_otaa
  | LORAMAC_JOIN_ABP => _join_abp
  | LORAMAC_JOIN_OTHER _ => mret tt
  end.

Definition _send (params : loramac_send_params_t) : M unit :=
  run _semtech_loramac_send (params_payload params) (params_len params) then
  mret tt.

(** [call->func(mac, call->arg)] *)
Definition call_func (call : semtech_loramac_call_t) : M unit :=
  match call with
  | call_join arg => _join arg
  | call_send arg => _send arg
  end.

(** *** [_semtech_loramac_event_cb] (lines 450-524) *)

Definition _semtech_loramac_event_cb (event : netdev_event_t) : M unit :=
  let msg := msg_set_ptr ptr_netdev uninit_msg in
  match event with
  | NETDEV_EVENT_ISR =>
      msg_send (msg_set_type MSG_TYPE_ISR msg) semtech_loramac_pid
  | NETDEV_EVENT_TX_COMPLETE =>
      run engine_call_void sx127x_set_sleep DriverSetSleep then
      engine_run (radio_events RadioTxDone) (RadioEvent RadioTxDone)
  | NETDEV_EVENT_TX_TIMEOUT =>
      msg_send (msg_set_type MSG_TYPE_TX_TIMEOUT msg) semtech_loramac_pid
  | NETDEV_EVENT_RX_COMPLETE =>
      let* len := engine_call_ret driver_recv_size DriverRecvSize in
      let* fr := engine_call_ret (driver_recv len)
                   (fun fr => DriverRecv len fr.1 fr.2) in
      let rx := RadioRxDone fr.1 len (rssi fr.2) (snr fr.2) in
      engine_run (radio_events rx) (RadioEvent rx)
  | NETDEV_EVENT_RX_TIMEOUT =>
      msg_send (msg_set_type MSG_TYPE_RX_TIMEOUT msg) semtech_loramac_pid
  | NETDEV_EVENT_CRC_ERROR =>
      engine_run (radio_events RadioRxError) (RadioEvent RadioRxError)
  | NETDEV_EVENT_FHSS_CHANGE_CHANNEL =>
      let* ch := read_eng last_channel in
      engine_run (radio_events (RadioFhssChangeChannel ch))
                 (RadioEvent (RadioFhssChangeChannel ch))
  | NETDEV_EVENT_CAD_DONE =>
      let* cad := read_eng is_last_cad_success in
      engine_run (radio_events (RadioCadDone cad)) (RadioEvent (RadioCadDone cad))
  | NETDEV_EVENT_CAD_DETECTED => mret tt
  | NETDEV_EVENT_VALID_HEADER => mret tt
  | NETDEV_EVENT_OTHER _ => mret tt
  end.

(** *** [_semtech_loramac_event_loop] (lines 526-653)

    [loop_body msg] is one turn of the [while (1)] loop, for the message
    that [msg_receive] delivered.  A message whose [content.ptr] is not of
    the kind its type announces makes the C code dereference a stray
    pointer; such a turn is left without effect here. *)

Definition loop_body (msg : msg_t) : M unit :=
  match type msg with
  | MSG_TYPE_ISR =>
      let* evs := engine_call_ret driver_isr (fun _ => DriverIsr) in
      mapM_ _semtech_loramac_event_cb evs
  | MSG_TYPE_RX_TIMEOUT =>
      engine_run (radio_events RadioRxTimeout) (RadioEvent RadioRxTimeout)
  | MSG_TYPE_TX_TIMEOUT =>
      engine_run (radio_events RadioTxTimeout) (RadioEvent RadioTxTimeout)
  | MSG_TYPE_MAC_TIMEOUT =>
      match content_ptr msg with
      | ptr_callback cb => engine_run (timer_callback cb) (TimerCallback cb)
      | _ => mret tt
      end
  | MSG_TYPE_LORAMAC_CMD =>
      match content_ptr msg with
      | ptr_call call =>
          run assign_state SEMTECH_LORAMAC_STATE_BUSY then
          call_func call
          (* msg_reply(&msg, &msg_resp) wakes the caller up *)
      | _ => mret tt
      end
  | MSG_TYPE_LORAMAC_JOIN =>
      run msg_send_caller (msg_set_value (content_value msg) uninit_msg) then
      (* switch back to idle state now *)
      assign_state SEMTECH_LORAMAC_STATE_IDLE
  | MSG_TYPE_LORAMAC_LINK_CHECK =>
      match content_ptr msg with
      | ptr_MlmeConfirm confirm =>
          write_mac (set_link_chk {| demod_margin := DemodMargin confirm;
                                     nb_gateways := NbGateways confirm;
                                     available := true |})
      | _ => mret tt
      end
  | MSG_TYPE_LORAMAC_TX_DONE =>
      run msg_send_caller (msg_set_type MSG_TYPE_LORAMAC_TX_DONE uninit_msg) then
      assign_state SEMTECH_LORAMAC_STATE_IDLE
  | MSG_TYPE_LORAMAC_TX_SCHEDULE =>
      let* prev_port := read_mac port in
      run write_mac (set_port 0) then
      run _semtech_loramac_send None 0 then
      write_mac (set_port prev_port)
  | MSG_TYPE_LORAMAC_TX_CNF_FAILED =>
      run msg_send_caller (msg_set_type MSG_TYPE_LORAMAC_TX_CNF_FAILED uninit_msg) then
      assign_state SEMTECH_LORAMAC_STATE_IDLE
  | MSG_TYPE_LORAMAC_RX =>
      match content_ptr msg with
      | ptr_McpsIndication indication =>
          let* m := read_mac id in
          run write_mac (set_rx_data
                {| rx_payload := firstn (Z.to_nat (BufferSize indication)) (Buffer indication)
                                 ++ skipn (Z.to_nat (BufferSize indication))
                                          (rx_payload (rx_data m));
                   rx_payload_len := BufferSize indication;
                   rx_port := Port indication;
                   rx_ack := AckReceived indication;
                   rx_multicast := Multicast indication;
                   rx_rssi := Rssi indication;
                   rx_datarate := RxDatarate indication |}) then
          run msg_send_caller (msg_set_type MSG_TYPE_LORAMAC_RX uninit_msg) then
          assign_state SEMTECH_LORAMAC_STATE_IDLE
      | _ => mret tt
      end
  | MSG_TYPE_OTHER _ => mret tt
  end.

(** One turn of the event loop: the actor takes the oldest message of its
    mailbox and handles it; with an empty mailbox it stays blocked in
    [msg_receive]. *)
Definition actor_turn (w : world) : world :=
  match msg_receive semtech_loramac_pid w with
  | None => w
  | Some (msg, w') => exec (loop_body msg) w'
  end.

(** *** [_semtech_loramac_call] (lines 438-448)

    [msg_send_receive] posts the command and blocks the caller until the
    actor has replied, that is, until the actor has handled every message
    that was in its mailbox before, and then the command. *)
Definition _semtech_loramac_call (call : semtech_loramac_call_t) : M unit :=
  run msg_send (msg_set_ptr (ptr_call call)
                  (msg_set_type MSG_TYPE_LORAMAC_CMD uninit_msg))
               semtech_loramac_pid then
  fun w => (tt, Nat.iter (length (queue semtech_loramac_pid w)) actor_turn w).

(** *** The public API (lines 655-762)

    A caller thread that reaches [msg_receive] blocks until a message is
    in its mailbox; [Receive k] is such a caller, [k] being the rest of the
    function once the message is there. *)

Inductive blocking (A : Type) :=
| Return (a : A)
| Receive (k : msg_t -> M A).
Arguments Return {A} a.
Arguments Receive {A} k.

(** The blocked caller [me] goes on as soon as its mailbox has a message. *)
Definition resume {A} (me : kernel_pid_t) (b : blocking A) (w : world)
    : option (A * world) :=
  match b with
  | Return a => Some (a, w)
  | Receive k =>
      match msg_receive me w with
      | None => None
      | Some (msg, w') => Some (k msg w')
      end
  end.

(** Lines 306-332. *)
Definition _init_loramac : M unit :=
  run engine_call_ret LoRaMacInitialization (fun _ => Initialization) then
  run (fun w => let (m, e) := semtech_loramac_set_defaults (mac w) (eng w) in
                (tt, with_eng e (with_mac m w))) then
  write_mac (set_available false).

(** [me] is [thread_getpid()]. *)
Definition semtech_loramac_join (me : kernel_pid_t) (join_type : loramac_join_t)
    : M (blocking Z) :=
  let* st := read_mac state in
  if decide (st <> SEMTECH_LORAMAC_STATE_IDLE) then
    mret (Return (ret8 SEMTECH_LORAMAC_BUSY))
  else
    run write_mac (set_caller_pid me) then
    run _semtech_loramac_call (call_join join_type) then
    if decide (join_type = LORAMAC_JOIN_OTAA) then
      (* Wait until the OTAA join procedure is complete *)
      mret (Receive (fun msg =>
        run assign_state SEMTECH_LORAMAC_STATE_IDLE then
        mret (uint8 (content_value msg))))
    else
      (* ABP join procedure always works *)
      mret (Return (ret8 SEMTECH_LORAMAC_JOIN_SUCCEEDED)).

Definition semtech_loramac_request_link_check : M unit :=
  run write_mac (set_available false) then
  run engine_call_ret (LoRaMacMlmeRequest MlmeReq_LinkCheck)
        (MlmeRequest MlmeReq_LinkCheck) then
  mret tt.

Definition semtech_loramac_send (data : option (list Z)) (len : Z) : M Z :=
  let* is_joined :=
    engine_call_get LoRaMacMibGetRequestConfirm_IsNetworkJoined
                    (MibGetRequestConfirm MIB_NETWORK_JOINED) in
  run write_mac (set_available false) then
  if negb is_joined then mret (ret8 SEMTECH_LORAMAC_NOT_JOINED)
  else
    let* st := read_mac state in
    if decide (st <> SEMTECH_LORAMAC_STATE_IDLE) then
      mret (ret8 SEMTECH_LORAMAC_BUSY)
    else
      run _semtech_loramac_call
            (call_send {| params_payload := data; params_len := len |}) then
      mret (ret8 SEMTECH_LORAMAC_TX_SCHEDULED).

Definition semtech_loramac_recv (me : kernel_pid_t) : M (blocking Z) :=
  run write_mac (set_caller_pid me) then
  (* Wait until the mac receive some information *)
  mret (Receive (fun msg =>
    mret (match type msg with
          | MSG_TYPE_LORAMAC_RX => ret8 SEMTECH_LORAMAC_DATA_RECEIVED
          | MSG_TYPE_LORAMAC_TX_CNF_FAILED => ret8 SEMTECH_LORAMAC_TX_CNF_FAILED
          | _ => ret8 SEMTECH_LORAMAC_TX_DONE
          end))).

(** *** The system as a transition relation

    The actor takes turns; the radio interrupt posts [MSG_TYPE_ISR] through
    the netdev callback; a timer expiry posts [MSG_TYPE_MAC_TIMEOUT] with
    the function to call (the timer glue lives in another file of the
    package); and threads other than the actor call the public API.  A
    thread blocked in [msg_receive] inside [semtech_loramac_join] or
    [semtech_loramac_recv] moves on when a message is there. *)

Inductive step : world -> world -> Prop :=
| step_actor w :
    step w (actor_turn w)
| step_radio_irq w :
    step w (exec (_semtech_loramac_event_cb NETDEV_EVENT_ISR) w)
(* Modelled from the spec: a timer expiry posts a message that carries
   the function to call (section 4.8). *)
| step_timer cb w :
    step w (exec (msg_send (msg_set_ptr (ptr_callback cb)
                              (msg_set_type MSG_TYPE_MAC_TIMEOUT uninit_msg))
                           semtech_loramac_pid) w)
| step_join me join_type w :
    me <> semtech_loramac_pid ->
    step w (exec (semtech_loramac_join me join_type) w)
| step_join_resume me join_type w0 w r w' :
    me <> semtech_loramac_pid ->
    resume me (eval (semtech_loramac_join me join_type) w0) w = Some (r, w') ->
    step w w'
| step_request_link_check w :
    step w (exec semtech_loramac_request_link_check w)
| step_send data len w :
    step w (exec (semtech_loramac_send data len) w)
| step_recv me w :
    me <> semtech_loramac_pid ->
    step w (exec (semtech_loramac_recv me) w)
| step_recv_resume me w0 w r w' :
    me <> semtech_loramac_pid ->
    resume me (eval (semtech_loramac_recv me) w0) w = Some (r, w') ->
    step w w'.

(** The system right after [semtech_loramac_init]: the event loop has
    initialised an empty queue, [_init_loramac] has run, nothing else has
    happened yet, and no caller has been recorded that would be the actor
    itself. *)
Definition booted (w : world) : Prop :=
  exists w0, trace w0 = [] /\ mbox w0 = ∅ /\ w = exec _init_loramac w0
             /\ caller_pid (mac w) <> semtech_loramac_pid.

Definition reachable (w : world) : Prop :=
  exists w0, booted w0 /\ rtc step w0 w.

(** A link-check confirm with status OK. *)
Definition link_check_ok (c : MlmeConfirm_t) : Prop :=
  MlmeConfirm_MlmeRequest c = MLME_LINK_CHECK /\
  MlmeConfirm_Status c = LORAMAC_EVENT_INFO_STATUS_OK.

(** The engine has made such a confirm so far. *)
Definition link_check_confirmed (tr : list event) : Prop :=
  exists c, In (EvCallback (MacMlmeConfirm c)) tr /\ link_check_ok c.

End Actor.

Arguments Return {engine A} a.
Arguments Receive {engine A} k.

(** ** A scripted engine

    A small engine to run the definitions on: it answers every request
    with the status it was configured with, keeps the joined flag that
    the MIB requests set, and replays a script of callbacks, one entry
    per radio or timer event.  Its radio holds no frame. *)

Record scripted := {
  s_joined : bool;
  s_dr : Z;
  s_query : LoRaMacStatus_t;
  s_mcps : LoRaMacStatus_t;
  s_mlme : LoRaMacStatus_t;
  s_script : list (list callback)
}.

Definition s_set_joined (b : bool) (e : scripted) : scripted :=
  {| s_joined := b; s_dr := s_dr e; s_query := s_query e; s_mcps := s_mcps e;
     s_mlme := s_mlme e; s_script := s_script e |}.

Definition s_next (e : scripted) : list callback * scripted :=
  match s_script e with
  | [] => ([], e)
  | cbs :: rest =>
      (cbs, {| s_joined := s_joined e; s_dr := s_dr e; s_query := s_query e;
               s_mcps := s_mcps e; s_mlme := s_mlme e; s_script := rest |})
  end.

#[global] Instance scripted_LoRaMac : LoRaMac scripted := {|
  LoRaMacInitialization e := (LORAMAC_STATUS_OK, e);
  LoRaMacQueryTxPossible _ e := (s_query e, e);
  LoRaMacMcpsRequest _ e := (s_mcps e, e);
  LoRaMacMlmeRequest _ e := (s_mlme e, e);
  LoRaMacMibSetRequestConfirm r e :=
    match r with
    | Mib_IsNetworkJoined b => s_set_joined b e
    | _ => e
    end;
  LoRaMacMibGetRequestConfirm_IsNetworkJoined := s_joined;
  radio_events _ := s_next;
  timer_callback _ := s_next;
  driver_isr e := ([], e);
  driver_recv_size e := (0, e);
  driver_recv _ e := (([], {| rssi := 0; snr := 0 |}), e);
  last_channel _ := 0;
  is_last_cad_success _ := false;
  sx127x_set_sleep e := e;
  semtech_loramac_get_dr := s_dr;
  semtech_loramac_set_netid _ e := e;
  semtech_loramac_set_defaults m e := (m, e)
|}.

Definition outcome_code (r : semtech_loramac_ret) : Z :=
  match r with
  | SEMTECH_LORAMAC_JOIN_SUCCEEDED => 0
  | SEMTECH_LORAMAC_JOIN_FAILED => 1
  | SEMTECH_LORAMAC_NOT_JOINED => 2
  | SEMTECH_LORAMAC_TX_SCHEDULED => 3
  | SEMTECH_LORAMAC_TX_DONE => 4
  | SEMTECH_LORAMAC_TX_CNF_FAILED => 5
  | SEMTECH_LORAMAC_DATA_RECEIVED => 6
  | SEMTECH_LORAMAC_BUSY => 7
  | SEMTECH_LORAMAC_RESTRICTED => 8
  end.

Definition blank_msg : msg_t :=
  {| type := MSG_TYPE_OTHER 0; content_value := 0; content_ptr := ptr_NULL |}.

#[global] Instance board : Platform := {|
  semtech_loramac_pid := 3;
  code := outcome_code;
  LORAMAC_DEFAULT_NETID := 1;
  uninit_msg := blank_msg;
  uninit_fPort := 0
|}.

Definition mac0 : semtech_loramac_t :=
  {| state := SEMTECH_LORAMAC_STATE_IDLE; caller_pid := 0; port := 2;
     cnf := LORAMAC_TX_UNCNF; trials := 3; datarate := 5;
     deveui := [1; 2; 3; 4; 5; 6; 7; 8]; appeui := [8; 7; 6; 5; 4; 3; 2; 1];
     appkey := [0; 1; 2; 3; 4; 5; 6; 7; 8; 9; 10; 11; 12; 13; 14; 15];
     devaddr := [38; 1; 2; 3];
     nwkskey := [0; 0; 0; 0; 0; 0; 0; 0; 0; 0; 0; 0; 0; 0; 0; 1];
     appskey := [0; 0; 0; 0; 0; 0; 0; 0; 0; 0; 0; 0; 0; 0; 0; 2];
     link_chk := {| demod_margin := 0; nb_gateways := 0; available := false |};
     rx_data := {| rx_payload := []; rx_payload_len := 0; rx_port := 0;
                   rx_ack := false; rx_multicast := false; rx_rssi := 0;
                   rx_datarate := 0 |} |}.

Definition engine0 : scripted :=
  {| s_joined := false; s_dr := 5; s_query := LORAMAC_STATUS_OK;
     s_mcps := LORAMAC_STATUS_OK; s_mlme := LORAMAC_STATUS_OK;
     s_script := [] |}.

(** A quiet system: idle descriptor, empty mailboxes, empty record. *)
Definition world0 (e : scripted) : world :=
  {| mac := mac0; eng := e; mbox := ∅; trace := [] |}.

(** Other configurations of the scripted engine. *)


Definition engine_no_room : scripted :=
  {| s_joined := true; s_dr := 5; s_query := LORAMAC_STATUS_ERROR 8;
     s_mcps := LORAMAC_STATUS_OK; s_mlme := LORAMAC_STATUS_OK;
     s_script := [] |}.

Definition engine_rejecting : scripted :=
  {| s_joined := true; s_dr := 5; s_query := LORAMAC_STATUS_OK;
     s_mcps := LORAMAC_STATUS_DUTYCYCLE_RESTRICTED; s_mlme := LORAMAC_STATUS_OK;
     s_script := [] |}.

Definition link_check_answer : MlmeConfirm_t :=
  {| MlmeConfirm_Status := LORAMAC_EVENT_INFO_STATUS_OK;
     MlmeConfirm_MlmeRequest := MLME_LINK_CHECK;
     DemodMargin := 20; NbGateways := 2 |}.

Definition engine_link_check : scripted :=
  {| s_joined := true; s_dr := 5; s_query := LORAMAC_STATUS_OK;
     s_mcps := LORAMAC_STATUS_OK; s_mlme := LORAMAC_STATUS_OK;
     s_script := [[MacMlmeConfirm link_check_answer]] |}.

(** A run: boot, request a link check, a MAC timer fires, the actor runs
    the timer callback (the engine confirms the link check), the actor
    handles the notification. *)
Definition world_link_checked : world :=
  actor_turn
    (actor_turn
       (exec (msg_send (msg_set_ptr (ptr_callback 0)
                          (msg_set_type MSG_TYPE_MAC_TIMEOUT uninit_msg))
                       semtech_loramac_pid)
          (exec semtech_loramac_request_link_check
             (exec _init_loramac (world0 engine_link_check))))).

(** ** Statements of the specification that the code does not meet

    Each is written down as the specification has it, to be tested on the
    scripted engine. *)

(** "A call issued while Busy returns Busy and never reaches the engine",
    for [join] and for [send], at the state [w]. *)
Definition busy_calls_return_busy_without_engine (w : world) : Prop :=
  state (mac w) <> SEMTECH_LORAMAC_STATE_IDLE ->
  (forall me join_type,
      eval (semtech_loramac_join me join_type) w
        = Return (ret8 SEMTECH_LORAMAC_BUSY) /\
      engine_calls (trace (exec (semtech_loramac_join me join_type) w))
        = engine_calls (trace w)) /\
  (forall data len,
      eval (semtech_loramac_send data len) w = ret8 SEMTECH_LORAMAC_BUSY /\
      engine_calls (trace (exec (semtech_loramac_send data len) w))
        = engine_calls (trace w)).

(** "send() called with network not joined returns NotJoined without an
    engine call", at the state [w]. *)
Definition not_joined_send_without_engine (w : world) : Prop :=
  LoRaMacMibGetRequestConfirm_IsNetworkJoined (eng w) = false ->
  forall data len,
    eval (semtech_loramac_send data len) w = ret8 SEMTECH_LORAMAC_NOT_JOINED /\
    engine_calls (trace (exec (semtech_loramac_send data len) w))
      = engine_calls (trace w).

(** "ABP join returns Succeeded synchronously and never transitions
    through Busy", at the state [w]: no assignment of Busy to [mac->state]
    is recorded while the call runs. *)
Definition abp_join_never_busy (w : world) : Prop :=
  state (mac w) = SEMTECH_LORAMAC_STATE_IDLE ->
  forall me,
    me <> semtech_loramac_pid ->
    eval (semtech_loramac_join me LORAMAC_JOIN_ABP) w
      = Return (ret8 SEMTECH_LORAMAC_JOIN_SUCCEEDED) /\
    forall during,
      trace (exec (semtech_loramac_join me LORAMAC_JOIN_ABP) w)
        = trace w ++ during ->
      ~ In SEMTECH_LORAMAC_STATE_BUSY (state_writes during).




(** The descriptor while an operation is in flight. *)
Definition world_busy (e : scripted) : world :=
  with_mac (set_state SEMTECH_LORAMAC_STATE_BUSY mac0) (world0 e).

(** [send] up to its two guards: the joined flag has been read from the
    engine and the link-check cache has been invalidated (lines 712-718). *)
Definition send_prologue {engine : Type} (w : @world engine) : @world engine :=
  with_trace (trace w ++ [EvEngine (MibGetRequestConfirm MIB_NETWORK_JOINED)])
             (with_mac (set_available false (mac w)) w).

(** The transmit request that [_semtech_loramac_send] builds (lines
    101-128) from the descriptor [m], the answer [q] of
    [LoRaMacQueryTxPossible] and the datarate [dr0] that
    [semtech_loramac_get_dr] returned. *)
Definition mcps_request `{!Platform} (m : semtech_loramac_t)
    (q : LoRaMacStatus_t) (dr0 : Z) (payload : option (list Z)) (len : Z)
    : McpsReq_t :=
  if decide (q <> LORAMAC_STATUS_OK) then
    McpsReq_Unconfirmed uninit_fPort None 0 (int8 (uint8 dr0))
  else if decide (cnf m = LORAMAC_TX_UNCNF) then
    McpsReq_Unconfirmed (port m) payload len (int8 (uint8 dr0))
  else McpsReq_Confirmed (port m) payload len (trials m) (int8 (uint8 dr0)).

(** The command message built by [_semtech_loramac_call]. *)
Definition cmd_msg `{!Platform} (call : semtech_loramac_call_t) : msg_t :=
  msg_set_ptr (ptr_call call) (msg_set_type MSG_TYPE_LORAMAC_CMD uninit_msg).

(** A computation [c] relates every state to the state it leaves. *)
Definition respects {engine : Type} (R : relation (@world engine)) {A}
    (c : M A) : Prop :=
  forall w, R w (exec c w).

(** The actor's mailbox has only received messages at its end. *)
Definition grows {engine : Type} `{!Platform} (w w' : @world engine) : Prop :=
  exists l, queue semtech_loramac_pid w' = queue semtech_loramac_pid w ++ l.

(** What the handling of an ABP join command records, for the descriptor
    [m] it runs on (lines 561 and 381-415). *)
Definition abp_join_record `{!Platform} (m : semtech_loramac_t) : list event :=
  [EvState SEMTECH_LORAMAC_STATE_BUSY;
   EvEngine (SetNetid LORAMAC_DEFAULT_NETID);
   EvEngine (MibSetRequestConfirm (Mib_IsNetworkJoined false));
   EvEngine (MibSetRequestConfirm (Mib_DevAddr (devaddr_word (devaddr m))));
   EvEngine (MibSetRequestConfirm (Mib_NwkSKey (nwkskey m)));
   EvEngine (MibSetRequestConfirm (Mib_AppSKey (appskey m)));
   EvEngine (MibSetRequestConfirm (Mib_IsNetworkJoined true));
   EvState SEMTECH_LORAMAC_STATE_IDLE].

(** The join request that [_join_otaa] builds from the descriptor. *)
Definition join_req (m : semtech_loramac_t) : MlmeReq_t :=
  MlmeReq_Join (deveui m) (appeui m) (appkey m) (datarate m).

(** The join notification posted to the actor with outcome [r]. *)
Definition join_msg `{!Platform} (r : semtech_loramac_ret) : msg_t :=
  msg_set_value (uint32 (code r)) (msg_set_type MSG_TYPE_LORAMAC_JOIN uninit_msg).

(** A link-check notification waits in the actor's mailbox. *)
Definition link_check_pending {engine : Type} `{!Platform} (w : @world engine)
    : Prop :=
  exists m, In m (queue semtech_loramac_pid w) /\
            type m = MSG_TYPE_LORAMAC_LINK_CHECK.

(** The invariant behind the link-check cache: the flag is set, or about
    to be set, only if the engine has confirmed a link check with status
    OK; and the recorded caller is never the actor itself. *)
Definition link_check_inv {engine : Type} `{!Platform} (w : @world engine)
    : Prop :=
  caller_pid (mac w) <> semtech_loramac_pid /\
  (available (link_chk (mac w)) = true \/ link_check_pending w ->
   link_check_confirmed (trace w)).

(** [safe w w']: going from [w] to [w'] did not set the flag, did not
    forget a confirm, and, if the recorded caller is not the actor, posted
    a link-check notification only after a confirm with status OK. *)
Definition safe {engine : Type} `{!Platform} (w w' : @world engine) : Prop :=
  (available (link_chk (mac w')) = true -> available (link_chk (mac w)) = true) /\
  (link_check_confirmed (trace w) -> link_check_confirmed (trace w')) /\
  (caller_pid (mac w) <> semtech_loramac_pid ->
   caller_pid (mac w') <> semtech_loramac_pid /\
   forall m, In m (queue semtech_loramac_pid w') ->
             type m = MSG_TYPE_LORAMAC_LINK_CHECK ->
             In m (queue semtech_loramac_pid w) \/
             link_check_confirmed (trace w')).

(** The link-check notification built by [mlme_confirm]. *)
Definition link_check_msg `{!Platform} (confirm : MlmeConfirm_t) : msg_t :=
  msg_set_ptr (ptr_MlmeConfirm confirm)
    (msg_set_type MSG_TYPE_LORAMAC_LINK_CHECK uninit_msg).

(** ** Further notions, for the properties beyond the claims *)

(** From [w] to [w'] the recorded caller is the same and, unless
    [busy_ok], the state has not become Busy. *)
Definition steady {engine : Type} (busy_ok : bool) (w w' : @world engine)
    : Prop :=
  caller_pid (mac w') = caller_pid (mac w) /\
  (busy_ok = false ->
   state (mac w') = SEMTECH_LORAMAC_STATE_BUSY ->
   state (mac w) = SEMTECH_LORAMAC_STATE_BUSY).

(** From [w] to [w'] the descriptor is the same and so are the mailboxes
    of all threads but the actor. *)
Definition actor_only {engine : Type} `{!Platform} (w w' : @world engine)
    : Prop :=
  mac w' = mac w /\
  forall pid, pid <> semtech_loramac_pid -> queue pid w' = queue pid w.

(** What the handling of an RX notification stores in [mac->rx_data]
    (lines 620-639) for the indication it points to: the scalar members,
    and the first [BufferSize] bytes of the buffer copied over the payload
    [old] held before. *)
Definition rx_copied (indication : McpsIndication_t)
    (old rx : semtech_loramac_rx_data_t) : Prop :=
  let n := Z.to_nat (BufferSize indication) in
  rx_payload_len rx = BufferSize indication /\
  rx_port rx = Port indication /\
  rx_rssi rx = Rssi indication /\
  rx_datarate rx = RxDatarate indication /\
  rx_ack rx = AckReceived indication /\
  rx_multicast rx = Multicast indication /\
  ((n <= length (Buffer indication))%nat ->
   firstn n (rx_payload rx) = firstn n (Buffer indication) /\
   skipn n (rx_payload rx) = skipn n (rx_payload old)).

(** The rest of [semtech_loramac_recv] once a message is there (lines
    746-761). *)
Definition recv_result `{!Platform} (msg : msg_t) : Z :=
  match type msg with
  | MSG_TYPE_LORAMAC_RX => ret8 SEMTECH_LORAMAC_DATA_RECEIVED
  | MSG_TYPE_LORAMAC_TX_CNF_FAILED => ret8 SEMTECH_LORAMAC_TX_CNF_FAILED
  | _ => ret8 SEMTECH_LORAMAC_TX_DONE
  end.

(** A transmit request without payload: NULL buffer, size zero. *)
Definition empty_frame (req : McpsReq_t) : Prop :=
  match req with
  | McpsReq_Unconfirmed _ fBuffer fBufferSize _ =>
      fBuffer = None /\ fBufferSize = 0
  | McpsReq_Confirmed _ fBuffer fBufferSize _ _ =>
      fBuffer = None /\ fBufferSize = 0
  end.

(** The port a transmit request carries. *)
Definition request_port (req : McpsReq_t) : Z :=
  match req with
  | McpsReq_Unconfirmed fPort _ _ _ => fPort
  | McpsReq_Confirmed fPort _ _ _ _ => fPort
  end.

(** The datarate a transmit request carries. *)
Definition request_datarate (req : McpsReq_t) : Z :=
  match req with
  | McpsReq_Unconfirmed _ _ _ Datarate => Datarate
  | McpsReq_Confirmed _ _ _ _ Datarate => Datarate
  end.

(** ** The ADC driver, [cpu/stm32l1/periph/adc.c] *)

(** The sample-time registers of ADC1. *)
Record ADC_SMPR := {
  SMPR0 : Z;
  SMPR1 : Z;
  SMPR2 : Z;
  SMPR3 : Z
}.

(** The loop of [adc_set_sample_time] (lines 92-94): [n] more turns from
    index [i] on, each doing [reg32 |= (time << (i * 3))].  The shifted
    value is converted to the 32 bits of [reg32]. *)
Fixpoint sample_time_fields (time : Z) (n : nat) (i : Z) (reg32 : Z) : Z :=
  match n with
  | O => reg32
  | S n' =>
      sample_time_fields time n' (i + 1)
        (Z.lor reg32 (uint32 (Z.shiftl time (i * 3))))
  end.

(** Lines 87-101.  [STM32L1XX_MD] says whether that macro is defined (the
    medium-density parts have no [SMPR0]); [time] is the [uint8_t]
    argument; the result is the register file after the four stores. *)
Definition adc_set_sample_time (STM32L1XX_MD : bool) (time : Z) (r : ADC_SMPR)
    : ADC_SMPR :=
  let reg32 := sample_time_fields (uint8 time) 10 0 0 in
  {| SMPR0 := if STM32L1XX_MD then SMPR0 r else reg32;
     SMPR1 := reg32;
     SMPR2 := reg32;
     SMPR3 := reg32 |}.

(** More runs on the scripted engine. *)

(** A quiet system whose recorded caller is thread 7. *)
Definition world_waiting (e : scripted) : world :=
  with_mac (set_caller_pid 7 mac0) (world0 e).

(** Thread 7 finds an old message in its mailbox. *)
Definition stale_msg : msg_t :=
  {| type := MSG_TYPE_LORAMAC_TX_DONE; content_value := 261;
     content_ptr := ptr_NULL |}.

Definition world_stale : world :=
  with_mbox (<[7 := [stale_msg]]> ∅) (world0 engine0).

Definition engine_busy_mlme : scripted :=
  {| s_joined := false; s_dr := 5; s_query := LORAMAC_STATUS_OK;
     s_mcps := LORAMAC_STATUS_OK; s_mlme := LORAMAC_STATUS_BUSY;
     s_script := [] |}.

Definition engine_timeout_script : scripted :=
  {| s_joined := true; s_dr := 5; s_query := LORAMAC_STATUS_OK;
     s_mcps := LORAMAC_STATUS_OK; s_mlme := LORAMAC_STATUS_OK;
     s_script := [[MacMcpsConfirm
                     {| McpsConfirm_Status := LORAMAC_EVENT_INFO_STATUS_ERROR 2;
                        McpsConfirm_McpsRequest := MCPS_CONFIRMED |}]] |}.

Definition confirm_unconfirmed_ok : McpsConfirm_t :=
  {| McpsConfirm_Status := LORAMAC_EVENT_INFO_STATUS_OK;
     McpsConfirm_McpsRequest := MCPS_UNCONFIRMED |}.

Definition downlink : McpsIndication_t :=
  {| McpsIndication_Status := LORAMAC_EVENT_INFO_STATUS_OK;
     McpsIndication_McpsIndication := MCPS_UNCONFIRMED;
     FramePending := false; RxData := true;
     Buffer := [104; 105; 33; 0]; BufferSize := 3; Port := 2;
     AckReceived := false; Multicast := false; Rssi := -57;
     RxDatarate := 5 |}.

Definition downlink_pending : McpsIndication_t :=
  {| McpsIndication_Status := LORAMAC_EVENT_INFO_STATUS_OK;
     McpsIndication_McpsIndication := MCPS_UNCONFIRMED;
     FramePending := true; RxData := false;
     Buffer := []; BufferSize := 0; Port := 0;
     AckReceived := true; Multicast := false; Rssi := -60;
     RxDatarate := 5 |}.

(** ** Properties *)

Section Properties.

Context {engine : Type} `{!LoRaMac engine} `{!Platform}.

Implicit Types (w : @world engine) (msg : msg_t) (R : relation (@world engine)).

Ltac unfold_M :=
  unfold exec, eval, mbind, mret, log, read_mac, write_mac, assign_state,
    engine_call_ret, engine_call_void, engine_call_get, msg_send,
    with_mac, with_eng, with_mbox, with_trace in *; simpl in *.

Lemma uint8_uint32 z : uint8 (uint32 z) = uint8 z.
Proof.
  unfold uint8, uint32. apply Z.mod_mod_divide.
  exists (2 ^ 24). reflexivity.
Qed.

Lemma queue_insert_eq pid q w :
  queue pid (with_mbox (<[pid := q]> (mbox w)) w) = q.
Proof. unfold queue; simpl. by rewrite lookup_insert_eq. Qed.

Lemma queue_insert_ne pid pid' q w :
  pid <> pid' -> queue pid' (with_mbox (<[pid := q]> (mbox w)) w) = queue pid' w.
Proof. intros. unfold queue; simpl. by rewrite lookup_insert_ne. Qed.

Lemma queue_nil_insert pid (b : gmap Z (list msg_t)) (m : semtech_loramac_t)
    (e : engine) t :
  queue pid {| mac := m; eng := e; mbox := <[pid := []]> b; trace := t |} = [].
Proof. unfold queue; simpl. by rewrite lookup_insert_eq. Qed.

Lemma engine_calls_app tr tr' :
  engine_calls (tr ++ tr') = engine_calls tr ++ engine_calls tr'.
Proof. apply omap_app. Qed.

Lemma state_writes_app tr tr' :
  state_writes (tr ++ tr') = state_writes tr ++ state_writes tr'.
Proof. apply omap_app. Qed.

(** *** C5 *)

(** C5. The MCPS confirm primitive posts to the actor exactly one TxDone
    message when the status is OK and the request was unconfirmed, exactly
    one TxConfirmFailed message when the status is not OK, and nothing when
    the status is OK and the request was confirmed or proprietary; it
    touches nothing else. *)
Theorem mcps_confirm_emits (confirm : McpsConfirm_t) w :
  let w' := exec (mcps_confirm confirm) w in
  let posted := fun l =>
    w' = with_mbox (<[semtech_loramac_pid := queue semtech_loramac_pid w ++ l]>
                      (mbox w)) w in
  (McpsConfirm_Status confirm = LORAMAC_EVENT_INFO_STATUS_OK ->
   McpsConfirm_McpsRequest confirm = MCPS_UNCONFIRMED ->
   posted [msg_set_type MSG_TYPE_LORAMAC_TX_DONE uninit_msg]) /\
  (McpsConfirm_Status confirm <> LORAMAC_EVENT_INFO_STATUS_OK ->
   posted [msg_set_type MSG_TYPE_LORAMAC_TX_CNF_FAILED uninit_msg]) /\
  (McpsConfirm_Status confirm = LORAMAC_EVENT_INFO_STATUS_OK ->
   McpsConfirm_McpsRequest confirm = MCPS_CONFIRMED \/
   McpsConfirm_McpsRequest confirm = MCPS_PROPRIETARY ->
   w' = w).
Proof.
  unfold mcps_confirm. repeat split.
  - intros Hst Hreq. rewrite decide_True, Hreq by done. reflexivity.
  - intros Hst. rewrite decide_False by done. reflexivity.
  - intros Hst [Hreq | Hreq]; rewrite decide_True, Hreq by done;
      by destruct w.
Qed.

(** *** C6 *)

(** What [_semtech_loramac_send] does, step by step. *)
Lemma _semtech_loramac_send_unfold payload len w :
  let dr := uint8 (semtech_loramac_get_dr (eng w)) in
  let q := LoRaMacQueryTxPossible len (eng w) in
  let mcpsReq :=
    if decide (q.1 <> LORAMAC_STATUS_OK) then
      McpsReq_Unconfirmed uninit_fPort None 0 (int8 dr)
    else if decide (cnf (mac w) = LORAMAC_TX_UNCNF) then
      McpsReq_Unconfirmed (port (mac w)) payload len (int8 dr)
    else McpsReq_Confirmed (port (mac w)) payload len (trials (mac w)) (int8 dr) in
  let r := LoRaMacMcpsRequest mcpsReq q.2 in
  let tr := trace w ++ [EvEngine GetDr] ++ [EvEngine (QueryTxPossible len q.1)]
              ++ [EvEngine (McpsRequest mcpsReq r.1)] in
  _semtech_loramac_send payload len w =
    if decide (r.1 = LORAMAC_STATUS_OK) then
      (false, {| mac := mac w; eng := r.2; mbox := mbox w; trace := tr |})
    else
      (true, {| mac := set_state SEMTECH_LORAMAC_STATE_IDLE (mac w); eng := r.2;
                mbox := mbox w;
                trace := tr ++ [EvState SEMTECH_LORAMAC_STATE_IDLE] |}).
Proof.
  destruct w as [m e b t]. unfold _semtech_loramac_send. unfold_M.
  destruct (LoRaMacQueryTxPossible len e) as [q e1] eqn:Hq; simpl.
  set (req := if decide (q <> LORAMAC_STATUS_OK) then _ else _).
  destruct (LoRaMacMcpsRequest req e1) as [st e2] eqn:Hr; simpl.
  rewrite <- !app_assoc; simpl.
  destruct st; simpl; rewrite <- ?app_assoc; reflexivity.
Qed.

(** C6. Whenever [LoRaMacQueryTxPossible] does not answer OK, the request
    that [_semtech_loramac_send] hands to [LoRaMacMcpsRequest] is an
    unconfirmed request with a NULL buffer of size zero at the current
    datarate, whatever payload the caller gave; this holds for a send
    dispatched as a command and for the flush send of the actor. *)
Theorem send_substitutes_empty_frame payload len w :
  (LoRaMacQueryTxPossible len (eng w)).1 <> LORAMAC_STATUS_OK ->
  let flush :=
    McpsReq_Unconfirmed uninit_fPort None 0
      (int8 (uint8 (semtech_loramac_get_dr (eng w)))) in
  let q := LoRaMacQueryTxPossible len (eng w) in
  let r := LoRaMacMcpsRequest flush q.2 in
  let sent w' :=
    eng w' = r.2 /\
    engine_calls (trace w') =
      engine_calls (trace w) ++
      [GetDr; QueryTxPossible len q.1; McpsRequest flush r.1] in
  sent (exec (_semtech_loramac_send payload len) w) /\
  sent (exec (call_func (call_send {| params_payload := payload;
                                      params_len := len |})) w) /\
  (forall msg, type msg = MSG_TYPE_LORAMAC_TX_SCHEDULE -> len = 0 ->
               sent (exec (loop_body msg) w)).
Proof.
  intros Hq flush q r sent.
  assert (Hsend : forall pl w0, eng w0 = eng w ->
            let w' := exec (_semtech_loramac_send pl len) w0 in
            eng w' = r.2 /\
            engine_calls (trace w') =
              engine_calls (trace w0) ++
              [GetDr; QueryTxPossible len q.1; McpsRequest flush r.1]).
  { intros pl w0 He. unfold exec.
    rewrite _semtech_loramac_send_unfold, He. cbv zeta.
    destruct (decide ((LoRaMacQueryTxPossible len (eng w)).1
                      <> LORAMAC_STATUS_OK)) as [_|]; [|done].
    fold flush q r.
    destruct (decide (r.1 = LORAMAC_STATUS_OK)); simpl;
      rewrite !engine_calls_app; simpl; rewrite ?app_nil_r; done. }
  split; [|split].
  - by apply Hsend.
  - unfold call_func, _send, exec, mbind; simpl.
    specialize (Hsend payload w eq_refl). unfold exec in Hsend.
    destruct (_semtech_loramac_send payload len w); exact Hsend.
  - intros msg Hty ->. unfold loop_body. rewrite Hty.
    unfold exec, mbind, read_mac, write_mac; simpl.
    specialize (Hsend None (with_mac (set_port 0 (mac w)) w) eq_refl).
    unfold exec in Hsend.
    destruct (_semtech_loramac_send None 0 _) as [b w1]; simpl in *.
    exact Hsend.
Qed.

(** *** C9 *)

(** C9. [semtech_loramac_recv] records the caller and blocks; the message
    that wakes it up decides the outcome by its type alone: DataReceived
    for an RX message, TxConfirmFailed for a TX_CNF_FAILED message, TxDone
    for a message of any other type, a join notification included.  No
    other outcome is possible, and waking up changes nothing else. *)
Theorem recv_outcome me w :
  exists k,
    semtech_loramac_recv me w
      = (Receive k, with_mac (set_caller_pid me (mac w)) w) /\
    forall msg w',
      exists r,
        k msg w' = (r, w') /\
        (type msg = MSG_TYPE_LORAMAC_RX ->
         r = ret8 SEMTECH_LORAMAC_DATA_RECEIVED) /\
        (type msg = MSG_TYPE_LORAMAC_TX_CNF_FAILED ->
         r = ret8 SEMTECH_LORAMAC_TX_CNF_FAILED) /\
        (type msg <> MSG_TYPE_LORAMAC_RX ->
         type msg <> MSG_TYPE_LORAMAC_TX_CNF_FAILED ->
         r = ret8 SEMTECH_LORAMAC_TX_DONE) /\
        (type msg = MSG_TYPE_LORAMAC_JOIN -> r = ret8 SEMTECH_LORAMAC_TX_DONE) /\
        (r = ret8 SEMTECH_LORAMAC_DATA_RECEIVED \/
         r = ret8 SEMTECH_LORAMAC_TX_CNF_FAILED \/
         r = ret8 SEMTECH_LORAMAC_TX_DONE).
Proof.
  eexists. split; [reflexivity|].
  intros msg w'. eexists. split; [reflexivity|].
  destruct (type msg); repeat split; intros; try congruence; auto.
Qed.

(** *** The guards of [send] and [join]: C10, C1, C4 *)

Lemma semtech_loramac_send_unfold data len w :
  semtech_loramac_send data len w =
    if negb (LoRaMacMibGetRequestConfirm_IsNetworkJoined (eng w)) then
      (ret8 SEMTECH_LORAMAC_NOT_JOINED, send_prologue w)
    else if decide (state (mac w) <> SEMTECH_LORAMAC_STATE_IDLE) then
      (ret8 SEMTECH_LORAMAC_BUSY, send_prologue w)
    else
      (ret8 SEMTECH_LORAMAC_TX_SCHEDULED,
       exec (_semtech_loramac_call
               (call_send {| params_payload := data; params_len := len |}))
            (send_prologue w)).
Proof.
  destruct w as [m e b t]. unfold semtech_loramac_send, send_prologue. unfold_M.
  destruct (LoRaMacMibGetRequestConfirm_IsNetworkJoined e); simpl; [|done].
  destruct (decide (state m <> SEMTECH_LORAMAC_STATE_IDLE)); simpl; [done|].
  reflexivity.
Qed.

Lemma semtech_loramac_join_busy me join_type w :
  state (mac w) <> SEMTECH_LORAMAC_STATE_IDLE ->
  semtech_loramac_join me join_type w = (Return (ret8 SEMTECH_LORAMAC_BUSY), w).
Proof.
  intros Hst. unfold semtech_loramac_join. unfold_M.
  by rewrite decide_True.
Qed.

(** C10. [semtech_loramac_send] clears the available flag of the
    link-check cache before it looks at the joined flag and at the state:
    the world in which the two guards are evaluated, [send_prologue w],
    has the flag false, and a send that returns NotJoined or Busy ends in
    exactly that world, with the mailboxes and the engine as they were. *)
Theorem send_clears_link_check_first data len w :
  let joined := LoRaMacMibGetRequestConfirm_IsNetworkJoined (eng w) in
  let w' := exec (semtech_loramac_send data len) w in
  available (link_chk (mac (send_prologue w))) = false /\
  (joined = false ->
   semtech_loramac_send data len w
     = (ret8 SEMTECH_LORAMAC_NOT_JOINED, send_prologue w)) /\
  (joined = true -> state (mac w) <> SEMTECH_LORAMAC_STATE_IDLE ->
   semtech_loramac_send data len w
     = (ret8 SEMTECH_LORAMAC_BUSY, send_prologue w)) /\
  (joined = true -> state (mac w) = SEMTECH_LORAMAC_STATE_IDLE ->
   semtech_loramac_send data len w
     = (ret8 SEMTECH_LORAMAC_TX_SCHEDULED,
        exec (_semtech_loramac_call
                (call_send {| params_payload := data; params_len := len |}))
             (send_prologue w))) /\
  (joined = false \/ state (mac w) <> SEMTECH_LORAMAC_STATE_IDLE ->
   available (link_chk (mac w')) = false /\ mbox w' = mbox w /\ eng w' = eng w).
Proof.
  intros joined w'. subst w'. unfold exec.
  rewrite semtech_loramac_send_unfold. fold joined.
  split; [reflexivity|].
  destruct joined; simpl.
  - destruct (decide (state (mac w) <> SEMTECH_LORAMAC_STATE_IDLE)) as [Hb|Hi];
      simpl; (split; [|split; [|split]]); try done.
    intros [?|?]; done.
  - (split; [|split; [|split]]); done.
Qed.

(** C1, as the code has it.  A [join] issued while the state is not Idle
    returns Busy and changes nothing at all.  A [send] issued while the
    state is not Idle asks the engine for the joined flag (one MIB get
    request, nothing else), clears the link-check available flag, and
    returns NotJoined when the network is not joined and Busy when it is;
    it posts no command and leaves the engine as it was, and the flag it
    has cleared is its only change to the descriptor. *)
Theorem busy_guard w :
  state (mac w) <> SEMTECH_LORAMAC_STATE_IDLE ->
  (forall me join_type,
      semtech_loramac_join me join_type w
        = (Return (ret8 SEMTECH_LORAMAC_BUSY), w)) /\
  (forall data len,
      let w' := exec (semtech_loramac_send data len) w in
      eval (semtech_loramac_send data len) w
        = (if LoRaMacMibGetRequestConfirm_IsNetworkJoined (eng w)
           then ret8 SEMTECH_LORAMAC_BUSY
           else ret8 SEMTECH_LORAMAC_NOT_JOINED) /\
      engine_calls (trace w')
        = engine_calls (trace w) ++ [MibGetRequestConfirm MIB_NETWORK_JOINED] /\
      eng w' = eng w /\ mbox w' = mbox w /\
      state (mac w') = state (mac w) /\
      available (link_chk (mac w')) = false /\
      mac w' = set_available false (mac w)).
Proof.
  intros Hst. split.
  - intros. by apply semtech_loramac_join_busy.
  - intros data len w'. subst w'. unfold exec, eval.
    rewrite semtech_loramac_send_unfold.
    destruct (LoRaMacMibGetRequestConfirm_IsNetworkJoined (eng w)); simpl.
    + rewrite decide_True by done. simpl.
      by rewrite engine_calls_app.
    + by rewrite engine_calls_app.
Qed.

(** C4, as the code has it.  A [send] issued while the network is not
    joined returns NotJoined; the one call into the engine on that path is
    the MIB get request that reads the joined flag; no command is posted
    and the engine is left as it was. *)
Theorem not_joined_guard data len w :
  LoRaMacMibGetRequestConfirm_IsNetworkJoined (eng w) = false ->
  let w' := exec (semtech_loramac_send data len) w in
  eval (semtech_loramac_send data len) w = ret8 SEMTECH_LORAMAC_NOT_JOINED /\
  engine_calls (trace w')
    = engine_calls (trace w) ++ [MibGetRequestConfirm MIB_NETWORK_JOINED] /\
  eng w' = eng w /\ mbox w' = mbox w /\ state (mac w') = state (mac w).
Proof.
  intros Hj w'. subst w'. unfold exec, eval.
  rewrite semtech_loramac_send_unfold, Hj. simpl.
  by rewrite engine_calls_app.
Qed.

(** *** Computations only append to the actor's mailbox *)

Lemma exec_mbind {A B} (c : M A) (k : A -> M B) w :
  exec (mbind c k) w = exec (k (eval c w)) (exec c w).
Proof. unfold exec, eval, mbind. by destruct (c w). Qed.

Lemma eval_mbind {A B} (c : M A) (k : A -> M B) w :
  eval (mbind c k) w = eval (k (eval c w)) (exec c w).
Proof. unfold exec, eval, mbind. by destruct (c w). Qed.

Lemma respects_mret R `{!Reflexive R} {A} (a : A) : respects R (mret a).
Proof. intros w. apply reflexivity. Qed.

Lemma respects_mbind R `{!Transitive R} {A B} (c : M A) (k : A -> M B) :
  respects R c -> (forall a, respects R (k a)) -> respects R (mbind c k).
Proof.
  intros Hc Hk w. rewrite exec_mbind.
  etransitivity; [apply Hc | apply Hk].
Qed.

Lemma respects_read_eng R `{!Reflexive R} {A} (f : engine -> A) :
  respects R (read_eng f).
Proof. intros w. apply reflexivity. Qed.

Lemma respects_mapM_ R `{!Reflexive R} `{!Transitive R} {A} (f : A -> M unit) l :
  (forall a, respects R (f a)) -> respects R (mapM_ f l).
Proof.
  intros Hf. induction l as [|a l IH]; simpl.
  - by apply respects_mret.
  - by apply respects_mbind.
Qed.

#[local] Instance grows_refl : Reflexive (@grows engine _).
Proof. intros w. exists []. by rewrite app_nil_r. Qed.

#[local] Instance grows_trans : Transitive (@grows engine _).
Proof.
  intros w1 w2 w3 [l1 H1] [l2 H2]. exists (l1 ++ l2).
  by rewrite H2, H1, app_assoc.
Qed.

Lemma grows_same_mbox w w' : mbox w' = mbox w -> grows w w'.
Proof. intros Hb. exists []. unfold queue. by rewrite Hb, app_nil_r. Qed.

Lemma grows_log e : respects (@grows engine _) (log e).
Proof. intros w. by apply grows_same_mbox. Qed.

Lemma grows_read_mac {A} (f : semtech_loramac_t -> A) : respects (@grows engine _) (read_mac f).
Proof. intros w. by apply grows_same_mbox. Qed.

Lemma grows_write_mac f : respects (@grows engine _) (write_mac f).
Proof. intros w. by apply grows_same_mbox. Qed.

Lemma grows_engine_call_ret {A} (f : engine -> A * engine) ev :
  respects (@grows engine _) (engine_call_ret f ev).
Proof.
  intros w. apply grows_same_mbox.
  unfold exec, engine_call_ret. by destruct (f (eng w)).
Qed.

Lemma grows_engine_call_void f ev : respects (@grows engine _) (engine_call_void f ev).
Proof. intros w. by apply grows_same_mbox. Qed.

Lemma grows_engine_call_get {A} (f : engine -> A) ev :
  respects (@grows engine _) (engine_call_get f ev).
Proof. intros w. by apply grows_same_mbox. Qed.

Lemma grows_msg_send m pid : respects (@grows engine _) (msg_send m pid).
Proof.
  intros w. unfold exec, msg_send; simpl.
  destruct (decide (pid = semtech_loramac_pid)) as [->|Hne].
  - exists [m]. by rewrite queue_insert_eq.
  - exists []. by rewrite queue_insert_ne, app_nil_r.
Qed.

Lemma grows_msg_send_caller m : respects (@grows engine _) (msg_send_caller m).
Proof. intros w. apply (grows_msg_send m (caller_pid (mac w)) w). Qed.

Ltac respects_step prims :=
  first
    [ prims
    | apply respects_mret; apply _
    | apply respects_read_eng; apply _
    | apply respects_mapM_; [apply _ | apply _ | intros ?]
    | apply respects_mbind; [apply _ | | intros ?]
    | match goal with
      | |- respects _ (match ?x with _ => _ end) => destruct x
      end ].

Ltac grows_prims :=
  first
    [ apply grows_log | apply grows_read_mac | apply grows_write_mac
    | apply grows_engine_call_ret | apply grows_engine_call_void
    | apply grows_engine_call_get | apply grows_msg_send
    | apply grows_msg_send_caller ].

Lemma grows_assign_state s : respects (@grows engine _) (assign_state s).
Proof. unfold assign_state. repeat respects_step grows_prims. Qed.

Lemma grows__semtech_loramac_send payload len :
  respects (@grows engine _) (_semtech_loramac_send payload len).
Proof.
  unfold _semtech_loramac_send.
  repeat respects_step ltac:(first [grows_prims | apply grows_assign_state]).
Qed.

Lemma grows_run_callback c : respects (@grows engine _) (run_callback c).
Proof.
  unfold run_callback, mcps_confirm, mcps_indication, mlme_indication,
    mlme_confirm.
  repeat respects_step grows_prims.
Qed.

Lemma grows_engine_run f ev : respects (@grows engine _) (engine_run f ev).
Proof.
  unfold engine_run.
  repeat respects_step ltac:(first [grows_prims | apply grows_run_callback]).
Qed.

Lemma grows__semtech_loramac_event_cb ev :
  respects (@grows engine _) (_semtech_loramac_event_cb ev).
Proof.
  unfold _semtech_loramac_event_cb.
  repeat respects_step ltac:(first [grows_prims | apply grows_engine_run]).
Qed.

Lemma grows_call_func call : respects (@grows engine _) (call_func call).
Proof.
  unfold call_func, _join, _join_otaa, _join_abp, _send.
  repeat respects_step
    ltac:(first [grows_prims | apply grows_assign_state
                | apply grows__semtech_loramac_send]).
Qed.

Lemma grows_loop_body msg : respects (@grows engine _) (loop_body msg).
Proof.
  unfold loop_body.
  repeat respects_step
    ltac:(first [grows_prims | apply grows_assign_state
                | apply grows__semtech_loramac_send | apply grows_engine_run
                | apply grows__semtech_loramac_event_cb
                | apply grows_call_func]).
Qed.

(** *** The synchronous call *)

Lemma actor_turn_cons msg q w :
  queue semtech_loramac_pid w = msg :: q ->
  actor_turn w
    = exec (loop_body msg) (with_mbox (<[semtech_loramac_pid := q]> (mbox w)) w).
Proof. intros Hq. unfold actor_turn, msg_receive. by rewrite Hq. Qed.

Lemma actor_turns_reach msg q :
  forall suffix w,
    queue semtech_loramac_pid w = q ++ msg :: suffix ->
    exists w_mid,
      Nat.iter (S (length q)) actor_turn w = exec (loop_body msg) w_mid /\
      (q = [] ->
       w_mid = with_mbox (<[semtech_loramac_pid := suffix]> (mbox w)) w).
Proof.
  induction q as [|m q IH]; intros suffix w Hq.
  - eexists. split; [|reflexivity]. simpl. by apply actor_turn_cons.
  - change (length (m :: q)) with (S (length q)).
    rewrite Nat.iter_succ_r.
    rewrite (actor_turn_cons m (q ++ msg :: suffix)) by exact Hq.
    set (w1 := with_mbox _ w).
    destruct (grows_loop_body m w1) as [l Hl].
    unfold w1 in Hl at 2. rewrite queue_insert_eq in Hl.
    rewrite <- app_assoc in Hl. simpl in Hl.
    destruct (IH _ _ Hl) as (w_mid & Hmid & _).
    exists w_mid. split; [exact Hmid | discriminate].
Qed.

(** [_semtech_loramac_call] ends with the actor's handling of the command;
    with an empty mailbox nothing else happens before. *)
Lemma _semtech_loramac_call_spec call w :
  exists w_mid,
    _semtech_loramac_call call w
      = (tt, exec (mbind (assign_state SEMTECH_LORAMAC_STATE_BUSY)
                         (fun _ => call_func call)) w_mid) /\
    (queue semtech_loramac_pid w = [] ->
     w_mid = with_mbox (<[semtech_loramac_pid := []]> (mbox w)) w).
Proof.
  unfold _semtech_loramac_call, mbind, msg_send. fold (cmd_msg call).
  set (w1 := with_mbox _ w).
  assert (Hq : queue semtech_loramac_pid w1
               = queue semtech_loramac_pid w ++ cmd_msg call :: [])
    by apply queue_insert_eq.
  destruct (actor_turns_reach _ _ _ _ Hq) as (w_mid & Hmid & Hemp).
  exists w_mid. split.
  - rewrite Hq, length_app, Nat.add_comm. simpl length. simpl Nat.add.
    rewrite Hmid. reflexivity.
  - intros Hnil. rewrite (Hemp Hnil). unfold w1, with_mbox; simpl.
    by rewrite insert_insert_eq.
Qed.

(** *** C3 *)

(** C3, as the code has it.  An ABP join issued while the state is Idle
    returns Succeeded from the call itself, without waiting for a message,
    and leaves the state Idle.  The actor handles the command like any
    other: it first assigns Busy to the state, then programs the engine,
    then assigns Idle; these are the only two assignments the command
    makes, and with an empty mailbox the only two of the whole call. *)
Theorem abp_join_synchronous me w :
  state (mac w) = SEMTECH_LORAMAC_STATE_IDLE ->
  exists w_mid w' : @world engine,
    semtech_loramac_join me LORAMAC_JOIN_ABP w
      = (Return (ret8 SEMTECH_LORAMAC_JOIN_SUCCEEDED), w') /\
    state (mac w') = SEMTECH_LORAMAC_STATE_IDLE /\
    trace w' = trace w_mid ++ abp_join_record (mac w_mid) /\
    state_writes (abp_join_record (mac w_mid))
      = [SEMTECH_LORAMAC_STATE_BUSY; SEMTECH_LORAMAC_STATE_IDLE] /\
    (queue semtech_loramac_pid w = [] ->
     trace w_mid = trace w /\ mac w_mid = set_caller_pid me (mac w)).
Proof.
  intros Hidle.
  destruct (_semtech_loramac_call_spec (call_join LORAMAC_JOIN_ABP)
              (with_mac (set_caller_pid me (mac w)) w)) as (w_mid & Hcall & Hemp).
  exists w_mid. eexists. split; [|split; [|split; [|split]]].
  - unfold semtech_loramac_join, mbind, read_mac.
    rewrite decide_False by (rewrite Hidle; intros ?; done).
    unfold write_mac. rewrite Hcall.
    rewrite decide_False by done. reflexivity.
  - destruct w_mid as [m e b t]. reflexivity.
  - destruct w_mid as [m e b t]. unfold_M.
    rewrite <- !app_assoc. reflexivity.
  - reflexivity.
  - intros Hq. rewrite (Hemp Hq). done.
Qed.

(** *** C7 *)

Lemma last_app3 {A} (l : list A) a b c : last (l ++ [a; b; c]) = Some c.
Proof.
  change [a; b; c] with ([a; b] ++ [c]).
  by rewrite app_assoc, last_snoc.
Qed.

(** One turn of the event loop on a schedule request, spelled out on the
    engine's answers. *)
Lemma flush_turn_engine msg w :
  type msg = MSG_TYPE_LORAMAC_TX_SCHEDULE ->
  let q := LoRaMacQueryTxPossible 0 (eng w) in
  let req := mcps_request (set_port 0 (mac w)) q.1
               (semtech_loramac_get_dr (eng w)) None 0 in
  let a := LoRaMacMcpsRequest req q.2 in
  exec (loop_body msg) w =
    {| mac := if decide (a.1 = LORAMAC_STATUS_OK) then mac w
              else set_state SEMTECH_LORAMAC_STATE_IDLE (mac w);
       eng := a.2;
       mbox := mbox w;
       trace := (trace w ++ [EvEngine GetDr; EvEngine (QueryTxPossible 0 q.1);
                             EvEngine (McpsRequest req a.1)])
                ++ (if decide (a.1 = LORAMAC_STATUS_OK) then []
                    else [EvState SEMTECH_LORAMAC_STATE_IDLE]) |}.
Proof.
  intros Hty q req a. unfold loop_body. rewrite Hty.
  rewrite !exec_mbind.
  change (eval (read_mac port) w) with (port (mac w)).
  change (exec (read_mac port) w) with w.
  set (w1 := exec (write_mac (set_port 0)) w).
  unfold exec at 2. rewrite _semtech_loramac_send_unfold. cbv zeta.
  change (eng w1) with (eng w). change (trace w1) with (trace w).
  change (mbox w1) with (mbox w).
  change (mac w1) with (set_port 0 (mac w)).
  fold q. fold (mcps_request (set_port 0 (mac w)) q.1
                  (semtech_loramac_get_dr (eng w)) None 0).
  fold req. fold a.
  destruct (decide (a.1 = LORAMAC_STATUS_OK)); unfold exec, write_mac; simpl;
    rewrite <- ?app_assoc; simpl; f_equal; by destruct (mac w).
Qed.

(** C7. Whenever [LoRaMacMcpsRequest] answers anything but OK, Busy and
    the duty-cycle restriction included, [_semtech_loramac_send] has
    assigned Idle to the state when it returns; that holds for the flush
    send of the actor too.  A [send] call that passed its guards returns
    TxScheduled whatever the engine answered, and when the engine rejected
    the request the state is Idle on return.  The request is the one built
    from the descriptor and from the answer of [LoRaMacQueryTxPossible],
    its status is the answer of [LoRaMacMcpsRequest] to it, and these
    calls are the ones recorded. *)
Theorem send_rejection_returns_to_idle :
  (forall payload len w,
      let r := _semtech_loramac_send payload len w in
      let q := LoRaMacQueryTxPossible len (eng w) in
      let req := mcps_request (mac w) q.1 (semtech_loramac_get_dr (eng w))
                   payload len in
      let a := LoRaMacMcpsRequest req q.2 in
      engine_calls (trace r.2)
        = engine_calls (trace w)
          ++ [GetDr; QueryTxPossible len q.1; McpsRequest req a.1] /\
      eng r.2 = a.2 /\
      (a.1 <> LORAMAC_STATUS_OK ->
       r.1 = true /\ state (mac r.2) = SEMTECH_LORAMAC_STATE_IDLE /\
       mac r.2 = set_state SEMTECH_LORAMAC_STATE_IDLE (mac w) /\
       state_writes (trace r.2)
         = state_writes (trace w) ++ [SEMTECH_LORAMAC_STATE_IDLE]) /\
      (a.1 = LORAMAC_STATUS_OK ->
       r.1 = false /\ mac r.2 = mac w /\
       state_writes (trace r.2) = state_writes (trace w))) /\
  (forall msg w,
      type msg = MSG_TYPE_LORAMAC_TX_SCHEDULE ->
      let w' := exec (loop_body msg) w in
      let q := LoRaMacQueryTxPossible 0 (eng w) in
      let req := mcps_request (set_port 0 (mac w)) q.1
                   (semtech_loramac_get_dr (eng w)) None 0 in
      let a := LoRaMacMcpsRequest req q.2 in
      engine_calls (trace w')
        = engine_calls (trace w)
          ++ [GetDr; QueryTxPossible 0 q.1; McpsRequest req a.1] /\
      eng w' = a.2 /\
      (a.1 <> LORAMAC_STATUS_OK ->
       state (mac w') = SEMTECH_LORAMAC_STATE_IDLE) /\
      (a.1 = LORAMAC_STATUS_OK -> state (mac w') = state (mac w))) /\
  (forall data len w,
      LoRaMacMibGetRequestConfirm_IsNetworkJoined (eng w) = true ->
      state (mac w) = SEMTECH_LORAMAC_STATE_IDLE ->
      let r := semtech_loramac_send data len w in
      r.1 = ret8 SEMTECH_LORAMAC_TX_SCHEDULED /\
      exists w_mid : @world engine,
        (queue semtech_loramac_pid w = [] ->
         w_mid = with_mbox (<[semtech_loramac_pid := []]> (mbox w))
                   (send_prologue w)) /\
        let q := LoRaMacQueryTxPossible len (eng w_mid) in
        let req := mcps_request (mac w_mid) q.1
                     (semtech_loramac_get_dr (eng w_mid)) data len in
        let a := LoRaMacMcpsRequest req q.2 in
        engine_calls (trace r.2)
          = engine_calls (trace w_mid)
            ++ [GetDr; QueryTxPossible len q.1; McpsRequest req a.1] /\
        eng r.2 = a.2 /\
        (a.1 <> LORAMAC_STATUS_OK ->
         state (mac r.2) = SEMTECH_LORAMAC_STATE_IDLE) /\
        (a.1 = LORAMAC_STATUS_OK ->
         state (mac r.2) = SEMTECH_LORAMAC_STATE_BUSY)).
Proof.
  assert (Hsend : forall payload len w,
      let r := _semtech_loramac_send payload len w in
      let q := LoRaMacQueryTxPossible len (eng w) in
      let req := mcps_request (mac w) q.1 (semtech_loramac_get_dr (eng w))
                   payload len in
      let a := LoRaMacMcpsRequest req q.2 in
      engine_calls (trace r.2)
        = engine_calls (trace w)
          ++ [GetDr; QueryTxPossible len q.1; McpsRequest req a.1] /\
      eng r.2 = a.2 /\
      (a.1 <> LORAMAC_STATUS_OK ->
       r.1 = true /\ state (mac r.2) = SEMTECH_LORAMAC_STATE_IDLE /\
       mac r.2 = set_state SEMTECH_LORAMAC_STATE_IDLE (mac w) /\
       state_writes (trace r.2)
         = state_writes (trace w) ++ [SEMTECH_LORAMAC_STATE_IDLE]) /\
      (a.1 = LORAMAC_STATUS_OK ->
       r.1 = false /\ mac r.2 = mac w /\
       state_writes (trace r.2) = state_writes (trace w))).
  { intros payload len w r q req a. subst r.
    rewrite _semtech_loramac_send_unfold. cbv zeta.
    fold q. fold (mcps_request (mac w) q.1 (semtech_loramac_get_dr (eng w))
                    payload len). fold req. fold a.
    destruct (decide (a.1 = LORAMAC_STATUS_OK)) as [Hok|Hrej]; cbn [fst snd];
      cbn [mac eng trace]; rewrite !engine_calls_app, !state_writes_app; simpl;
      rewrite ?app_nil_r; repeat split; done. }
  split; [exact Hsend | split].
  - intros msg w Hty w' q req a. subst w'.
    rewrite (flush_turn_engine msg w Hty). fold q req a. cbn [mac eng trace].
    split; [|split; [reflexivity | split]].
    + rewrite !engine_calls_app. simpl.
      destruct (decide _); simpl; by rewrite app_nil_r.
    + intros Hrej. by rewrite decide_False.
    + intros Hok. by rewrite decide_True.
  - intros data len w Hj Hidle r. subst r.
    rewrite semtech_loramac_send_unfold, Hj. simpl.
    rewrite decide_False by (rewrite Hidle; intros ?; done). simpl.
    split; [reflexivity|].
    destruct (_semtech_loramac_call_spec
                (call_send {| params_payload := data; params_len := len |})
                (send_prologue w)) as (w_mid & Hcall & Hemp).
    exists w_mid. split; [exact Hemp|].
    set (w1 := exec (assign_state SEMTECH_LORAMAC_STATE_BUSY) w_mid).
    assert (Hex : exec (_semtech_loramac_call
                          (call_send {| params_payload := data;
                                        params_len := len |}))
                       (send_prologue w)
                  = (_semtech_loramac_send data len w1).2).
    { unfold exec at 1. rewrite Hcall. simpl.
      rewrite exec_mbind. unfold call_func, _send. rewrite exec_mbind.
      reflexivity. }
    rewrite Hex.
    assert (Hw1 : mac w1 = set_state SEMTECH_LORAMAC_STATE_BUSY (mac w_mid) /\
                  eng w1 = eng w_mid /\
                  engine_calls (trace w1) = engine_calls (trace w_mid)).
    { subst w1. destruct w_mid as [m e b t]. unfold_M.
      rewrite engine_calls_app. simpl. by rewrite app_nil_r. }
    destruct Hw1 as (Hm1 & He1 & Ht1).
    destruct (Hsend data len w1) as (Hcalls & Heng & Hrej & Hok).
    rewrite He1, Ht1, Hm1 in *.
    change (mcps_request (set_state SEMTECH_LORAMAC_STATE_BUSY (mac w_mid)))
      with (mcps_request (mac w_mid)) in *.
    cbv zeta.
    split; [exact Hcalls | split; [exact Heng | split]].
    + intros Hst. by destruct (Hrej Hst) as (_ & Hidle' & _).
    + intros Hst. destruct (Hok Hst) as (_ & Hmac & _). by rewrite Hmac.
Qed.

(** *** C2 *)

(** The dispatch of an OTAA join on a quiet actor. *)
Lemma semtech_loramac_join_otaa_unfold me w :
  state (mac w) = SEMTECH_LORAMAC_STATE_IDLE ->
  queue semtech_loramac_pid w = [] ->
  let e1 := LoRaMacMibSetRequestConfirm (Mib_IsNetworkJoined false) (eng w) in
  let r := LoRaMacMlmeRequest (join_req (mac w)) e1 in
  let after q :=
    {| mac := set_state SEMTECH_LORAMAC_STATE_BUSY (set_caller_pid me (mac w));
       eng := r.2;
       mbox := <[semtech_loramac_pid := q]> (mbox w);
       trace := trace w ++
         [EvState SEMTECH_LORAMAC_STATE_BUSY;
          EvEngine (MibSetRequestConfirm (Mib_IsNetworkJoined false));
          EvEngine (MlmeRequest (join_req (mac w)) r.1)] |} in
  exists k,
    (forall msg w', k msg w'
       = (uint8 (content_value msg),
          exec (assign_state SEMTECH_LORAMAC_STATE_IDLE) w')) /\
    semtech_loramac_join me LORAMAC_JOIN_OTAA w
      = (Receive k,
         match r.1 with
         | LORAMAC_STATUS_OK => after []
         | LORAMAC_STATUS_DUTYCYCLE_RESTRICTED =>
             after [join_msg SEMTECH_LORAMAC_RESTRICTED]
         | _ => after [join_msg SEMTECH_LORAMAC_JOIN_FAILED]
         end).
Proof.
  intros Hidle Hq e1 r after.
  destruct (_semtech_loramac_call_spec (call_join LORAMAC_JOIN_OTAA)
              (with_mac (set_caller_pid me (mac w)) w)) as (w_mid & Hcall & Hemp).
  specialize (Hemp Hq). subst w_mid.
  eexists. split; [intros; reflexivity|].
  unfold semtech_loramac_join, mbind, read_mac.
  rewrite decide_False by (rewrite Hidle; intros ?; done).
  unfold write_mac. rewrite Hcall.
  rewrite decide_True by done. unfold mret. f_equal.
  subst after r e1. destruct w as [m e b t]. unfold call_func, _join, _join_otaa.
  unfold_M. fold (join_req m).
  destruct (LoRaMacMlmeRequest (join_req m) _) as [st e2]; simpl.
  unfold join_msg.
  destruct st; simpl; rewrite <- ?app_assoc; simpl;
    rewrite ?queue_nil_insert, ?insert_insert_eq; reflexivity.
Qed.

Lemma actor_turn_join_notification msg q w :
  queue semtech_loramac_pid w = msg :: q ->
  type msg = MSG_TYPE_LORAMAC_JOIN ->
  actor_turn w =
    {| mac := set_state SEMTECH_LORAMAC_STATE_IDLE (mac w);
       eng := eng w;
       mbox := <[caller_pid (mac w) :=
                   queue (caller_pid (mac w))
                         (with_mbox (<[semtech_loramac_pid := q]> (mbox w)) w)
                   ++ [msg_set_value (content_value msg) uninit_msg]]>
                 (<[semtech_loramac_pid := q]> (mbox w));
       trace := trace w ++ [EvState SEMTECH_LORAMAC_STATE_IDLE] |}.
Proof.
  intros Hq Hty. rewrite (actor_turn_cons msg q) by exact Hq.
  unfold loop_body. rewrite Hty. destruct w as [m e b t]. reflexivity.
Qed.

Lemma resume_receive {A} me (k : msg_t -> M A) msg q w :
  queue me w = msg :: q ->
  resume me (Receive k) w = Some (k msg (with_mbox (<[me := q]> (mbox w)) w)).
Proof. intros Hq. unfold resume, msg_receive. by rewrite Hq. Qed.

(** A join notification in the actor's mailbox reaches the blocked caller
    of [semtech_loramac_join] as the value it carries. *)
Lemma join_result_delivered me r (k : msg_t -> M Z) w :
  me <> semtech_loramac_pid ->
  caller_pid (mac w) = me ->
  queue semtech_loramac_pid w = [join_msg r] ->
  queue me w = [] ->
  (forall msg w', k msg w'
     = (uint8 (content_value msg),
        exec (assign_state SEMTECH_LORAMAC_STATE_IDLE) w')) ->
  state (mac (actor_turn w)) = SEMTECH_LORAMAC_STATE_IDLE /\
  exists w2 : @world engine,
    resume me (Receive k) (actor_turn w) = Some (ret8 r, w2) /\
    state (mac w2) = SEMTECH_LORAMAC_STATE_IDLE.
Proof.
  intros Hne Hcaller Hq Hme Hk.
  rewrite (actor_turn_join_notification (join_msg r) []) by done.
  rewrite Hcaller. split; [reflexivity|].
  rewrite queue_insert_ne, Hme by done.
  match goal with |- context [resume me (Receive k) ?x] => set (w1 := x) end.
  assert (Hq1 : queue me w1
                = [msg_set_value (content_value (join_msg r)) uninit_msg])
    by (unfold queue; simpl; by rewrite lookup_insert_eq).
  rewrite (resume_receive me k _ [] w1 Hq1), Hk.
  eexists. split.
  - unfold join_msg, ret8. simpl content_value.
    rewrite uint8_uint32. reflexivity.
  - reflexivity.
Qed.


(** *** C8: the link-check cache *)

Lemma link_check_confirmed_app tr tr' :
  link_check_confirmed tr -> link_check_confirmed (tr ++ tr').
Proof. intros (c & Hin & Hok). exists c. split; [apply in_or_app; by left | done]. Qed.

#[local] Instance safe_refl : Reflexive (@safe engine _).
Proof. intros w. unfold safe. naive_solver. Qed.

#[local] Instance safe_trans : Transitive (@safe engine _).
Proof.
  intros w1 w2 w3 (Ha1 & Hc1 & Hq1) (Ha2 & Hc2 & Hq2).
  split; [tauto | split; [tauto|]].
  intros Hcp. destruct (Hq1 Hcp) as [Hcp2 Hm1].
  destruct (Hq2 Hcp2) as [Hcp3 Hm2].
  split; [exact Hcp3|]. intros m Hin Hty.
  destruct (Hm2 m Hin Hty) as [Hin2|?]; [|by right].
  destruct (Hm1 m Hin2 Hty) as [?|?]; [by left | right; tauto].
Qed.

(** A step that leaves the descriptor's caller and flag alone, adds no
    link-check notification and only extends the record is safe. *)
Lemma safe_intro w w' :
  caller_pid (mac w') = caller_pid (mac w) ->
  available (link_chk (mac w')) = available (link_chk (mac w)) ->
  (forall m, In m (queue semtech_loramac_pid w') ->
             type m = MSG_TYPE_LORAMAC_LINK_CHECK ->
             In m (queue semtech_loramac_pid w)) ->
  (exists l, trace w' = trace w ++ l) ->
  safe w w'.
Proof.
  intros Hcp Hav Hq [l Htr]. unfold safe. rewrite Hcp, Hav, Htr.
  split; [done | split; [apply link_check_confirmed_app|]].
  intros ?. split; [done|]. intros m Hin Hty. left. by apply Hq.
Qed.

Lemma safe_log e : respects (@safe engine _) (log e).
Proof. intros w. apply safe_intro; try done. by eexists. Qed.

Lemma safe_read_mac {A} (f : semtech_loramac_t -> A) :
  respects (@safe engine _) (read_mac f).
Proof. intros w. apply safe_intro; try done. exists []. by rewrite app_nil_r. Qed.

Lemma safe_write_mac f :
  (forall m, caller_pid (f m) = caller_pid m) ->
  (forall m, available (link_chk (f m)) = true -> available (link_chk m) = true) ->
  respects (@safe engine _) (write_mac f).
Proof.
  intros Hcp Hav w. unfold safe, exec, write_mac; simpl. rewrite Hcp.
  split; [apply Hav | split; [done|]]. intros ?. split; [done|]. by left.
Qed.

Lemma safe_engine_call_ret {A} (f : engine -> A * engine) ev :
  respects (@safe engine _) (engine_call_ret f ev).
Proof.
  intros w. unfold exec, engine_call_ret. destruct (f (eng w)); simpl.
  apply safe_intro; try done. by eexists.
Qed.

Lemma safe_engine_call_void f ev :
  respects (@safe engine _) (engine_call_void f ev).
Proof. intros w. apply safe_intro; try done. by eexists. Qed.

Lemma safe_engine_call_get {A} (f : engine -> A) ev :
  respects (@safe engine _) (engine_call_get f ev).
Proof. intros w. apply safe_intro; try done. by eexists. Qed.

(** Posting anything but a link-check notification to the actor is safe,
    and so is posting anything to another thread. *)
Lemma safe_msg_send m pid :
  type m <> MSG_TYPE_LORAMAC_LINK_CHECK \/ pid <> semtech_loramac_pid ->
  respects (@safe engine _) (msg_send m pid).
Proof.
  intros Hm w. apply safe_intro; try done.
  - intros m' Hin Hty. unfold exec, msg_send in Hin; simpl in Hin.
    destruct (decide (pid = semtech_loramac_pid)) as [->|Hne].
    + rewrite queue_insert_eq in Hin. apply in_app_or in Hin.
      destruct Hin as [?|[<-|[]]]; [done|]. destruct Hm; done.
    + by rewrite queue_insert_ne in Hin.
  - exists []. by rewrite app_nil_r.
Qed.

Lemma safe_msg_send_caller m : respects (@safe engine _) (msg_send_caller m).
Proof.
  intros w. unfold safe, exec, msg_send_caller, msg_send; simpl.
  split; [done | split; [done|]]. intros Hcp. split; [done|].
  intros m' Hin _. left. by rewrite queue_insert_ne in Hin.
Qed.

Ltac safe_prims :=
  first
    [ apply safe_log | apply safe_read_mac
    | apply safe_engine_call_ret | apply safe_engine_call_void
    | apply safe_engine_call_get | apply safe_msg_send_caller
    | apply safe_msg_send; left; simpl; discriminate
    | apply safe_write_mac;
        [ intros ?; reflexivity
        | intros ? Hav; first [exact Hav | discriminate Hav] ] ].

Lemma safe_assign_state s : respects (@safe engine _) (assign_state s).
Proof. unfold assign_state. repeat respects_step safe_prims. Qed.

Lemma safe__semtech_loramac_send payload len :
  respects (@safe engine _) (_semtech_loramac_send payload len).
Proof.
  unfold _semtech_loramac_send.
  repeat respects_step ltac:(first [safe_prims | apply safe_assign_state]).
Qed.

(** The one place where a link-check notification is posted: the MLME
    confirm primitive, for a link-check confirm with status OK, which the
    record shows. *)
Lemma safe_run_callback c : respects (@safe engine _) (run_callback c).
Proof.
  destruct c as [c|i|c|i]; unfold run_callback.
  - unfold mcps_confirm. repeat respects_step safe_prims.
  - unfold mcps_indication. repeat respects_step safe_prims.
    destruct (RxData i); safe_prims.
  - unfold mlme_confirm.
    destruct (MlmeConfirm_MlmeRequest c) eqn:Hreq;
      [ repeat respects_step safe_prims | | repeat respects_step safe_prims .. ].
    destruct (decide (MlmeConfirm_Status c = LORAMAC_EVENT_INFO_STATUS_OK))
      as [Hst|Hst]; [|repeat respects_step safe_prims].
    intros w.
    assert (Hconf : link_check_confirmed
                      (trace w ++ [EvCallback (MacMlmeConfirm c)])).
    { exists c. split; [apply in_or_app; right; by left | done]. }
    unfold safe, exec, mbind, log, msg_send; simpl.
    split; [done | split; [done|]]. intros ?. split; [done|]. by right.
  - unfold mlme_indication. repeat respects_step safe_prims.
Qed.

Lemma safe_engine_run f ev : respects (@safe engine _) (engine_run f ev).
Proof.
  unfold engine_run.
  repeat respects_step ltac:(first [safe_prims | apply safe_run_callback]).
Qed.

Lemma safe__semtech_loramac_event_cb ev :
  respects (@safe engine _) (_semtech_loramac_event_cb ev).
Proof.
  unfold _semtech_loramac_event_cb.
  repeat respects_step ltac:(first [safe_prims | apply safe_engine_run]).
Qed.

Lemma safe_call_func call : respects (@safe engine _) (call_func call).
Proof.
  unfold call_func, _join, _join_otaa, _join_abp, _send.
  repeat respects_step
    ltac:(first [safe_prims | apply safe_assign_state
                | apply safe__semtech_loramac_send]).
Qed.

(** Every turn of the event loop is safe, the handling of a link-check
    notification apart. *)
Lemma safe_loop_body msg :
  type msg <> MSG_TYPE_LORAMAC_LINK_CHECK ->
  respects (@safe engine _) (loop_body msg).
Proof.
  intros Hty. unfold loop_body.
  destruct (type msg) eqn:Heq; try done;
  repeat respects_step
    ltac:(first [safe_prims | apply safe_assign_state
                | apply safe__semtech_loramac_send | apply safe_engine_run
                | apply safe__semtech_loramac_event_cb
                | apply safe_call_func]).
Qed.

(** *** The invariant holds in every reachable state *)

Lemma inv_safe w w' : link_check_inv w -> safe w w' -> link_check_inv w'.
Proof.
  intros [Hcp Hinv] (Hav & Hconf & Hq). destruct (Hq Hcp) as [Hcp' Hm].
  split; [exact Hcp'|].
  intros [Ha | (m & Hin & Hty)].
  - apply Hconf, Hinv. left. by apply Hav.
  - destruct (Hm m Hin Hty) as [Hin0|?]; [|done].
    apply Hconf, Hinv. right. by exists m.
Qed.

(** Taking a message out of a mailbox keeps the invariant. *)
Lemma inv_receive pid msg w w' :
  msg_receive pid w = Some (msg, w') -> link_check_inv w -> link_check_inv w'.
Proof.
  unfold msg_receive. destruct (queue pid w) as [|m q] eqn:Hq; [done|].
  intros [= <- <-] [Hcp Hinv]. split; [exact Hcp|].
  intros [Ha | (m' & Hin & Hty)]; apply Hinv; [by left|].
  right. exists m'. split; [|done].
  destruct (decide (pid = semtech_loramac_pid)) as [->|Hne].
  - rewrite queue_insert_eq in Hin. rewrite Hq. by right.
  - by rewrite queue_insert_ne in Hin.
Qed.

Lemma inv_actor_turn w : link_check_inv w -> link_check_inv (actor_turn w).
Proof.
  intros Hinv. unfold actor_turn.
  destruct (msg_receive semtech_loramac_pid w) as [[msg w1]|] eqn:Hrecv; [|done].
  pose proof (inv_receive _ _ _ _ Hrecv Hinv) as Hinv1.
  destruct (decide (type msg = MSG_TYPE_LORAMAC_LINK_CHECK)) as [Hty|Hty].
  - assert (Hconf : link_check_confirmed (trace w1)).
    { unfold msg_receive in Hrecv.
      destruct (queue semtech_loramac_pid w) as [|m q] eqn:Hq; [done|].
      injection Hrecv as <- <-. apply Hinv. right. exists m.
      rewrite Hq. split; [by left | done]. }
    destruct Hinv1 as [Hcp _]. unfold loop_body. rewrite Hty.
    destruct (content_ptr msg); split; done.
  - exact (inv_safe _ _ Hinv1 (safe_loop_body msg Hty w1)).
Qed.

Lemma inv_actor_turns n w :
  link_check_inv w -> link_check_inv (Nat.iter n actor_turn w).
Proof. intros Hinv. induction n; simpl; [done | by apply inv_actor_turn]. Qed.

Lemma inv__semtech_loramac_call call w :
  link_check_inv w -> link_check_inv (exec (_semtech_loramac_call call) w).
Proof.
  intros Hinv. unfold _semtech_loramac_call. rewrite exec_mbind.
  unfold exec at 1. simpl. apply inv_actor_turns.
  eapply inv_safe; [exact Hinv|].
  apply safe_msg_send. left. simpl. discriminate.
Qed.

Lemma inv_set_caller_pid me w :
  me <> semtech_loramac_pid ->
  link_check_inv w -> link_check_inv (with_mac (set_caller_pid me (mac w)) w).
Proof. intros Hne [_ Hinv]. split; done. Qed.

(** What [semtech_loramac_join] leaves its caller with. *)
Lemma semtech_loramac_join_cases me join_type w :
  (exists r, eval (semtech_loramac_join me join_type) w = Return r) \/
  eval (semtech_loramac_join me join_type) w
    = Receive (fun msg =>
        mbind (assign_state SEMTECH_LORAMAC_STATE_IDLE)
              (fun _ => mret (uint8 (content_value msg)))).
Proof.
  unfold semtech_loramac_join, eval, mbind, read_mac, write_mac. simpl.
  destruct (decide (state (mac w) <> SEMTECH_LORAMAC_STATE_IDLE));
    [left; by eexists|].
  destruct (decide (join_type = LORAMAC_JOIN_OTAA));
    [right | left; eexists]; reflexivity.
Qed.

Lemma inv_semtech_loramac_join me join_type w :
  me <> semtech_loramac_pid ->
  link_check_inv w -> link_check_inv (exec (semtech_loramac_join me join_type) w).
Proof.
  intros Hne Hinv. unfold semtech_loramac_join.
  rewrite exec_mbind. unfold eval at 1, exec at 2, read_mac. simpl.
  destruct (decide (state (mac w) <> SEMTECH_LORAMAC_STATE_IDLE)); [done|].
  rewrite exec_mbind. unfold exec at 2, write_mac. simpl.
  rewrite exec_mbind.
  pose proof (inv__semtech_loramac_call (call_join join_type) _
                (inv_set_caller_pid me w Hne Hinv)) as Hcall.
  destruct (decide (join_type = LORAMAC_JOIN_OTAA)); exact Hcall.
Qed.

Lemma inv_send_prologue w : link_check_inv w -> link_check_inv (send_prologue w).
Proof.
  intros [Hcp Hinv]. split; [exact Hcp|].
  intros [Ha | Hp]; [done|].
  apply link_check_confirmed_app, Hinv. by right.
Qed.

Lemma inv_step w w' : step w w' -> link_check_inv w -> link_check_inv w'.
Proof.
  intros Hstep Hinv.
  destruct Hstep as [w | w | cb w | me jt w Hne | me jt w0 w r w' Hne Hres
                    | w | data len w | me w Hne | me w0 w r w' Hne Hres].
  - by apply inv_actor_turn.
  - exact (inv_safe _ _ Hinv (safe__semtech_loramac_event_cb _ w)).
  - eapply inv_safe; [exact Hinv|].
    apply safe_msg_send. left. simpl. discriminate.
  - by apply inv_semtech_loramac_join.
  - destruct (semtech_loramac_join_cases me jt w0) as [[r0 Hj] | Hj];
      rewrite Hj in Hres; simpl in Hres.
    + by injection Hres as _ <-.
    + destruct (msg_receive me w) as [[msg w1]|] eqn:Hrecv; [|done].
      injection Hres as _ <-.
      pose proof (inv_receive _ _ _ _ Hrecv Hinv) as Hinv1.
      eapply inv_safe; [exact Hinv1|].
      assert (Hs : respects (@safe engine _)
                (mbind (assign_state SEMTECH_LORAMAC_STATE_IDLE)
                       (fun _ => mret (uint8 (content_value msg)))))
        by (repeat respects_step
              ltac:(first [safe_prims | apply safe_assign_state])).
      apply Hs.
  - eapply inv_safe; [exact Hinv|]. revert w Hinv.
    assert (Hs : respects (@safe engine _) semtech_loramac_request_link_check);
      [|intros w _; apply Hs].
    unfold semtech_loramac_request_link_check.
    repeat respects_step safe_prims.
  - unfold exec. rewrite semtech_loramac_send_unfold.
    pose proof (inv_send_prologue w Hinv) as Hp.
    destruct (negb _); [exact Hp|].
    destruct (decide _); [exact Hp|]. simpl.
    by apply inv__semtech_loramac_call.
  - by apply inv_set_caller_pid.
  - unfold semtech_loramac_recv, eval, mbind, write_mac, mret in Hres.
    simpl in Hres.
    destruct (msg_receive me w) as [[msg w1]|] eqn:Hrecv; [|done].
    injection Hres as _ <-. exact (inv_receive _ _ _ _ Hrecv Hinv).
Qed.

Lemma inv_booted w : booted w -> link_check_inv w.
Proof.
  intros (w0 & Htr & Hb & -> & Hcp). split; [exact Hcp|].
  assert (Hav : available (link_chk (mac (exec _init_loramac w0))) = false).
  { unfold _init_loramac. rewrite !exec_mbind. reflexivity. }
  assert (Hq : queue semtech_loramac_pid (exec _init_loramac w0) = []).
  { unfold _init_loramac. rewrite !exec_mbind.
    unfold exec at 1, write_mac, queue. simpl.
    unfold exec at 1. destruct (semtech_loramac_set_defaults _ _); simpl.
    unfold exec, engine_call_ret. destruct (LoRaMacInitialization _); simpl.
    by rewrite Hb. }
  intros [Ha | (m & Hin & _)].
  - by rewrite Hav in Ha.
  - by rewrite Hq in Hin.
Qed.

Lemma inv_steps w0 w : rtc step w0 w -> link_check_inv w0 -> link_check_inv w.
Proof.
  induction 1 as [w | w1 w2 w3 Hstep Hsteps IH]; [done|].
  intros Hinv. by apply IH, (inv_step w1).
Qed.

Lemma inv_reachable w : reachable w -> link_check_inv w.
Proof.
  intros (w0 & Hboot & Hsteps). by apply (inv_steps w0), inv_booted.
Qed.

(** C8. In every state the system can reach after initialisation, the
    available flag of the link-check cache is true only if the engine has
    made a link-check confirm with status OK before.  No turn of the event
    loop other than the handling of a link-check notification sets the
    flag; that notification is posted by the MLME confirm primitive for a
    link-check confirm with status OK, and its handling stores the
    demodulation margin and the gateway count of the confirm along with
    the flag.  A confirm with any other status leaves the descriptor as it
    is and posts no link-check notification, so a flag that was false
    stays false. *)
Theorem link_check_available_only_after_ok_confirm :
  (forall w, reachable w ->
     available (link_chk (mac w)) = true -> link_check_confirmed (trace w)) /\
  (forall msg w, type msg <> MSG_TYPE_LORAMAC_LINK_CHECK ->
     available (link_chk (mac (exec (loop_body msg) w))) = true ->
     available (link_chk (mac w)) = true) /\
  (forall confirm w, link_check_ok confirm ->
     exec (mlme_confirm confirm) w
       = with_mbox (<[semtech_loramac_pid :=
                        queue semtech_loramac_pid w ++ [link_check_msg confirm]]>
                      (mbox w)) w) /\
  (forall confirm w,
     link_chk (mac (exec (loop_body (link_check_msg confirm)) w))
       = {| demod_margin := DemodMargin confirm;
            nb_gateways := NbGateways confirm;
            available := true |}) /\
  (forall confirm w,
     MlmeConfirm_Status confirm <> LORAMAC_EVENT_INFO_STATUS_OK ->
     let w' := exec (mlme_confirm confirm) w in
     mac w' = mac w /\
     (forall m, In m (queue semtech_loramac_pid w') ->
                type m = MSG_TYPE_LORAMAC_LINK_CHECK ->
                In m (queue semtech_loramac_pid w)) /\
     (MlmeConfirm_MlmeRequest confirm = MLME_LINK_CHECK -> w' = w)).
Proof.
  split; [|split; [|split; [|split]]].
  - intros w Hreach Hav. apply (inv_reachable w Hreach). by left.
  - intros msg w Hty. by apply (safe_loop_body msg Hty w).
  - intros confirm w [Hreq Hst]. unfold mlme_confirm.
    rewrite Hreq, decide_True by done. reflexivity.
  - intros confirm w. reflexivity.
  - intros confirm w Hst w'. subst w'. unfold mlme_confirm.
    destruct (decide (MlmeConfirm_Status confirm = LORAMAC_EVENT_INFO_STATUS_OK));
      [done|].
    destruct (MlmeConfirm_MlmeRequest confirm);
      try (split; [reflexivity | split; [done | by destruct w]]).
    split; [reflexivity | split; [|done]].
    intros m Hin Hty. unfold exec, msg_send in Hin. simpl in Hin.
    rewrite queue_insert_eq in Hin. apply in_app_or in Hin.
    destruct Hin as [?|[<-|[]]]; done.
Qed.

(** ** Beyond the claims *)

(** *** Who writes the state and the recorded caller *)

#[local] Instance steady_refl b : Reflexive (@steady engine b).
Proof. intros w. split; done. Qed.

#[local] Instance steady_trans b : Transitive (@steady engine b).
Proof.
  intros w1 w2 w3 [Hc1 Hb1] [Hc2 Hb2]. split; [congruence|].
  intros Hb H3. apply (Hb1 Hb), (Hb2 Hb), H3.
Qed.

Lemma steady_same_mac b w w' : mac w' = mac w -> steady b w w'.
Proof. intros Hm. unfold steady. rewrite Hm. done. Qed.

Lemma steady_log b e : respects (@steady engine b) (log e).
Proof. intros w. by apply steady_same_mac. Qed.

Lemma steady_read_mac b {A} (f : semtech_loramac_t -> A) :
  respects (@steady engine b) (read_mac f).
Proof. intros w. by apply steady_same_mac. Qed.

Lemma steady_engine_call_ret b {A} (f : engine -> A * engine) ev :
  respects (@steady engine b) (engine_call_ret f ev).
Proof.
  intros w. apply steady_same_mac.
  unfold exec, engine_call_ret. by destruct (f (eng w)).
Qed.

Lemma steady_engine_call_void b f ev :
  respects (@steady engine b) (engine_call_void f ev).
Proof. intros w. by apply steady_same_mac. Qed.

Lemma steady_engine_call_get b {A} (f : engine -> A) ev :
  respects (@steady engine b) (engine_call_get f ev).
Proof. intros w. by apply steady_same_mac. Qed.

Lemma steady_msg_send b m pid : respects (@steady engine b) (msg_send m pid).
Proof. intros w. by apply steady_same_mac. Qed.

Lemma steady_msg_send_caller b m :
  respects (@steady engine b) (msg_send_caller m).
Proof. intros w. by apply steady_same_mac. Qed.

Lemma steady_write_mac b f :
  (forall m, caller_pid (f m) = caller_pid m) ->
  (forall m, state (f m) = state m) ->
  respects (@steady engine b) (write_mac f).
Proof.
  intros Hc Hs w. unfold steady, exec, write_mac; simpl.
  rewrite Hc, Hs. done.
Qed.

Lemma steady_assign_idle b :
  respects (@steady engine b) (assign_state SEMTECH_LORAMAC_STATE_IDLE).
Proof. intros w. split; [reflexivity | discriminate]. Qed.

Lemma steady_assign_busy :
  respects (@steady engine true) (assign_state SEMTECH_LORAMAC_STATE_BUSY).
Proof. intros w. split; [reflexivity | discriminate]. Qed.

Ltac steady_prims :=
  first
    [ apply steady_log | apply steady_read_mac
    | apply steady_engine_call_ret | apply steady_engine_call_void
    | apply steady_engine_call_get | apply steady_msg_send
    | apply steady_msg_send_caller | apply steady_assign_idle
    | apply steady_assign_busy
    | apply steady_write_mac; intros ?; reflexivity ].

Lemma steady__semtech_loramac_send b payload len :
  respects (@steady engine b) (_semtech_loramac_send payload len).
Proof. unfold _semtech_loramac_send. repeat respects_step steady_prims. Qed.

Lemma steady_run_callback b c : respects (@steady engine b) (run_callback c).
Proof.
  unfold run_callback, mcps_confirm, mcps_indication, mlme_indication,
    mlme_confirm.
  repeat respects_step steady_prims.
Qed.

Lemma steady_engine_run b f ev : respects (@steady engine b) (engine_run f ev).
Proof.
  unfold engine_run.
  repeat respects_step ltac:(first [steady_prims | apply steady_run_callback]).
Qed.

Lemma steady__semtech_loramac_event_cb b ev :
  respects (@steady engine b) (_semtech_loramac_event_cb ev).
Proof.
  unfold _semtech_loramac_event_cb.
  repeat respects_step ltac:(first [steady_prims | apply steady_engine_run]).
Qed.

Lemma steady_call_func b call : respects (@steady engine b) (call_func call).
Proof.
  unfold call_func, _join, _join_otaa, _join_abp, _send.
  repeat respects_step
    ltac:(first [steady_prims | apply steady__semtech_loramac_send]).
Qed.

Ltac steady_handlers :=
  first [ steady_prims | apply steady__semtech_loramac_send
        | apply steady_engine_run | apply steady__semtech_loramac_event_cb
        | apply steady_call_func ].

Lemma steady_loop_body msg : respects (@steady engine true) (loop_body msg).
Proof. unfold loop_body. repeat respects_step steady_handlers. Qed.

Lemma steady_loop_body_no_cmd msg :
  type msg <> MSG_TYPE_LORAMAC_CMD ->
  respects (@steady engine false) (loop_body msg).
Proof.
  intros Hty. unfold loop_body.
  destruct (type msg) eqn:Heq; try done; repeat respects_step steady_handlers.
Qed.

Lemma actor_turn_caller_pid w :
  caller_pid (mac (actor_turn w)) = caller_pid (mac w).
Proof.
  unfold actor_turn, msg_receive.
  destruct (queue semtech_loramac_pid w) as [|msg q]; [done|].
  match goal with |- context [exec (loop_body msg) ?x] =>
    destruct (steady_loop_body msg x) as [Hc _]; exact Hc end.
Qed.

Lemma actor_turns_caller_pid n w :
  caller_pid (mac (Nat.iter n actor_turn w)) = caller_pid (mac w).
Proof.
  induction n as [|n IH]; simpl; [done|]. by rewrite actor_turn_caller_pid.
Qed.

Lemma _semtech_loramac_call_caller_pid call w :
  caller_pid (mac (exec (_semtech_loramac_call call) w)) = caller_pid (mac w).
Proof.
  unfold _semtech_loramac_call. rewrite exec_mbind. unfold exec at 1. simpl.
  by rewrite actor_turns_caller_pid.
Qed.

#[local] Instance actor_only_refl : Reflexive (@actor_only engine _).
Proof. intros w. split; done. Qed.

#[local] Instance actor_only_trans : Transitive (@actor_only engine _).
Proof.
  intros w1 w2 w3 [Hm1 Hq1] [Hm2 Hq2]. split; [congruence|].
  intros pid Hne. by rewrite Hq2, Hq1.
Qed.

Lemma actor_only_same w w' :
  mac w' = mac w -> mbox w' = mbox w -> actor_only w w'.
Proof. intros Hm Hb. split; [done|]. intros pid _. unfold queue. by rewrite Hb. Qed.

Lemma actor_only_log e : respects (@actor_only engine _) (log e).
Proof. intros w. by apply actor_only_same. Qed.

Lemma actor_only_engine_call_ret {A} (f : engine -> A * engine) ev :
  respects (@actor_only engine _) (engine_call_ret f ev).
Proof.
  intros w. unfold exec, engine_call_ret. destruct (f (eng w)).
  by apply actor_only_same.
Qed.

Lemma actor_only_engine_call_void f ev :
  respects (@actor_only engine _) (engine_call_void f ev).
Proof. intros w. by apply actor_only_same. Qed.

Lemma actor_only_msg_send m :
  respects (@actor_only engine _) (msg_send m semtech_loramac_pid).
Proof.
  intros w. split; [done|]. intros pid Hne.
  unfold exec, msg_send; simpl. by rewrite queue_insert_ne.
Qed.

Ltac actor_only_prims :=
  first
    [ apply actor_only_log | apply actor_only_engine_call_ret
    | apply actor_only_engine_call_void | apply actor_only_msg_send ].

Lemma actor_only_run_callback c : respects (@actor_only engine _) (run_callback c).
Proof.
  unfold run_callback, mcps_confirm, mcps_indication, mlme_indication,
    mlme_confirm.
  repeat respects_step actor_only_prims.
Qed.

Lemma actor_only_engine_run f ev :
  respects (@actor_only engine _) (engine_run f ev).
Proof.
  unfold engine_run.
  repeat respects_step
    ltac:(first [actor_only_prims | apply actor_only_run_callback]).
Qed.

Lemma actor_only__semtech_loramac_event_cb ev :
  respects (@actor_only engine _) (_semtech_loramac_event_cb ev).
Proof.
  unfold _semtech_loramac_event_cb.
  repeat respects_step
    ltac:(first [actor_only_prims | apply actor_only_engine_run]).
Qed.

(** X1. The state becomes Busy only when the actor starts a command: no
    other turn of the event loop turns a state that is not Busy into Busy,
    so after any turn that left the state Busy either it was Busy before
    or the message handled was a command.  The engine's primitives and
    the netdev callback never write the descriptor at all, and they post
    to no mailbox but the actor's. *)
Theorem busy_only_by_command :
  (forall msg w,
     type msg <> MSG_TYPE_LORAMAC_CMD ->
     state (mac (exec (loop_body msg) w)) = SEMTECH_LORAMAC_STATE_BUSY ->
     state (mac w) = SEMTECH_LORAMAC_STATE_BUSY) /\
  (forall w,
     state (mac (actor_turn w)) = SEMTECH_LORAMAC_STATE_BUSY ->
     state (mac w) = SEMTECH_LORAMAC_STATE_BUSY \/
     exists msg q, queue semtech_loramac_pid w = msg :: q /\
                   type msg = MSG_TYPE_LORAMAC_CMD) /\
  (forall c w, actor_only w (exec (run_callback c) w)) /\
  (forall ev w, actor_only w (exec (_semtech_loramac_event_cb ev) w)).
Proof.
  split; [|split; [|split]].
  - intros msg w Hty. by apply (steady_loop_body_no_cmd msg Hty w).
  - intros w. unfold actor_turn, msg_receive.
    destruct (queue semtech_loramac_pid w) as [|msg q] eqn:Hq; [by left|].
    destruct (decide (type msg = MSG_TYPE_LORAMAC_CMD)) as [Hty|Hty].
    + right. by exists msg, q.
    + intros Hb. left.
      by apply (steady_loop_body_no_cmd msg Hty _) in Hb.
  - intros c w. apply actor_only_run_callback.
  - intros ev w. apply actor_only__semtech_loramac_event_cb.
Qed.

Lemma semtech_loramac_recv_unfold me w :
  semtech_loramac_recv me w
    = (Receive (fun msg => mret (recv_result msg)),
       with_mac (set_caller_pid me (mac w)) w).
Proof. reflexivity. Qed.

(** X2. The caller recorded in the descriptor is written by
    [semtech_loramac_join] (when it passes its guard) and by
    [semtech_loramac_recv] only: no turn of the event loop changes it, and
    neither do [semtech_loramac_send] and
    [semtech_loramac_request_link_check].  The outcome of a send therefore
    goes to the thread that called join or recv last. *)
Theorem caller_recorded_by_join_and_recv_only :
  (forall w, caller_pid (mac (actor_turn w)) = caller_pid (mac w)) /\
  (forall data len w,
     caller_pid (mac (exec (semtech_loramac_send data len) w))
       = caller_pid (mac w)) /\
  (forall w,
     caller_pid (mac (exec semtech_loramac_request_link_check w))
       = caller_pid (mac w)) /\
  (forall me w, caller_pid (mac (exec (semtech_loramac_recv me) w)) = me) /\
  (forall me join_type w,
     caller_pid (mac (exec (semtech_loramac_join me join_type) w))
       = if decide (state (mac w) = SEMTECH_LORAMAC_STATE_IDLE)
         then me else caller_pid (mac w)).
Proof.
  split; [|split; [|split; [|split]]].
  - apply actor_turn_caller_pid.
  - intros data len w. unfold exec at 1. rewrite semtech_loramac_send_unfold.
    destruct (negb _); [done|]. destruct (decide _); [done|]. simpl.
    by rewrite _semtech_loramac_call_caller_pid.
  - intros w.
    assert (Hs : respects (@steady engine true)
                   semtech_loramac_request_link_check).
    { unfold semtech_loramac_request_link_check.
      repeat respects_step steady_prims. }
    apply Hs.
  - intros me w. reflexivity.
  - intros me join_type w. unfold semtech_loramac_join.
    rewrite exec_mbind. unfold eval at 1, exec at 2, read_mac. simpl.
    destruct (decide (state (mac w) <> SEMTECH_LORAMAC_STATE_IDLE)) as [Hb|Hi].
    + destruct (decide (state (mac w) = SEMTECH_LORAMAC_STATE_IDLE)); done.
    + destruct (decide (state (mac w) = SEMTECH_LORAMAC_STATE_IDLE)) as [_|Hn];
        [|by destruct (state (mac w)); [destruct Hn | destruct Hi]].
      rewrite exec_mbind. unfold exec at 2, write_mac. simpl.
      rewrite exec_mbind.
      destruct (decide (join_type = LORAMAC_JOIN_OTAA));
        unfold exec at 1, mret; simpl;
        by rewrite _semtech_loramac_call_caller_pid.
Qed.

(** *** Terminal events on their way to [semtech_loramac_recv] *)

Lemma actor_turn_tx_notification msg q w :
  queue semtech_loramac_pid w = msg :: q ->
  type msg = MSG_TYPE_LORAMAC_TX_DONE \/
  type msg = MSG_TYPE_LORAMAC_TX_CNF_FAILED ->
  actor_turn w =
    {| mac := set_state SEMTECH_LORAMAC_STATE_IDLE (mac w);
       eng := eng w;
       mbox := <[caller_pid (mac w) :=
                   queue (caller_pid (mac w))
                         (with_mbox (<[semtech_loramac_pid := q]> (mbox w)) w)
                   ++ [msg_set_type (type msg) uninit_msg]]>
                 (<[semtech_loramac_pid := q]> (mbox w));
       trace := trace w ++ [EvState SEMTECH_LORAMAC_STATE_IDLE] |}.
Proof.
  intros Hq Hty. rewrite (actor_turn_cons msg q) by exact Hq.
  unfold loop_body. destruct w as [m e b t].
  destruct Hty as [-> | ->]; reflexivity.
Qed.

(** A TX notification in the actor's mailbox wakes the caller blocked in
    [semtech_loramac_recv] with a message of the same type. *)
Lemma tx_notification_delivered me msg w0 w :
  me <> semtech_loramac_pid ->
  caller_pid (mac w) = me ->
  queue semtech_loramac_pid w = [msg] ->
  queue me w = [] ->
  type msg = MSG_TYPE_LORAMAC_TX_DONE \/
  type msg = MSG_TYPE_LORAMAC_TX_CNF_FAILED ->
  state (mac (actor_turn w)) = SEMTECH_LORAMAC_STATE_IDLE /\
  queue semtech_loramac_pid (actor_turn w) = [] /\
  exists w2 : @world engine,
    resume me (eval (semtech_loramac_recv me) w0) (actor_turn w)
      = Some (recv_result msg, w2) /\
    mac w2 = set_state SEMTECH_LORAMAC_STATE_IDLE (mac w) /\
    eng w2 = eng w.
Proof.
  intros Hne Hcaller Hq Hme Hty.
  rewrite (actor_turn_tx_notification msg []) by done.
  rewrite Hcaller, queue_insert_ne, Hme by done.
  split; [reflexivity | split].
  - unfold queue; simpl. by rewrite lookup_insert_ne, lookup_insert_eq.
  - unfold eval. rewrite semtech_loramac_recv_unfold. simpl fst.
    match goal with |- context [resume me _ ?x] => set (w1 := x) end.
    assert (Hq1 : queue me w1 = [msg_set_type (type msg) uninit_msg])
      by (unfold queue; simpl; by rewrite lookup_insert_eq).
    rewrite (resume_receive me _ _ [] w1 Hq1).
    eexists. split; [reflexivity | split; reflexivity].
Qed.

(** X3. What an MCPS confirm means for a caller blocked in
    [semtech_loramac_recv] on a quiet system: status OK for an unconfirmed
    request wakes it with TxDone; any other status wakes it with
    TxConfirmFailed; in both cases the state is Idle after the actor's
    turn.  Status OK for a request that was not unconfirmed wakes nobody:
    the caller stays blocked and the descriptor, the state included, is
    left as it was. *)
Theorem confirm_outcome_reaches_recv me confirm w0 w :
  me <> semtech_loramac_pid ->
  caller_pid (mac w) = me ->
  queue semtech_loramac_pid w = [] ->
  queue me w = [] ->
  let w1 := exec (run_callback (MacMcpsConfirm confirm)) w in
  let waiting := eval (semtech_loramac_recv me) w0 in
  let wakes r :=
    state (mac (actor_turn w1)) = SEMTECH_LORAMAC_STATE_IDLE /\
    exists w2 : @world engine,
      resume me waiting (actor_turn w1) = Some (ret8 r, w2) in
  (McpsConfirm_Status confirm = LORAMAC_EVENT_INFO_STATUS_OK ->
   McpsConfirm_McpsRequest confirm = MCPS_UNCONFIRMED ->
   wakes SEMTECH_LORAMAC_TX_DONE) /\
  (McpsConfirm_Status confirm <> LORAMAC_EVENT_INFO_STATUS_OK ->
   wakes SEMTECH_LORAMAC_TX_CNF_FAILED) /\
  (McpsConfirm_Status confirm = LORAMAC_EVENT_INFO_STATUS_OK ->
   McpsConfirm_McpsRequest confirm <> MCPS_UNCONFIRMED ->
   actor_turn w1 = w1 /\ mac w1 = mac w /\ resume me waiting w1 = None).
Proof.
  intros Hne Hcaller Hq Hme w1 waiting wakes.
  assert (Hpost : forall t,
            exec (mbind (log (EvCallback (MacMcpsConfirm confirm)))
                    (fun _ => msg_send (msg_set_type t uninit_msg)
                                       semtech_loramac_pid)) w
            = {| mac := mac w; eng := eng w;
                 mbox := <[semtech_loramac_pid := [msg_set_type t uninit_msg]]>
                           (mbox w);
                 trace := trace w ++ [EvCallback (MacMcpsConfirm confirm)] |}).
  { intros t. unfold_M. unfold queue in *; simpl. by rewrite Hq. }
  assert (Hwake : forall t,
            t = MSG_TYPE_LORAMAC_TX_DONE \/ t = MSG_TYPE_LORAMAC_TX_CNF_FAILED ->
            w1 = exec (mbind (log (EvCallback (MacMcpsConfirm confirm)))
                    (fun _ => msg_send (msg_set_type t uninit_msg)
                                       semtech_loramac_pid)) w ->
            state (mac (actor_turn w1)) = SEMTECH_LORAMAC_STATE_IDLE /\
            exists w2 : @world engine,
              resume me waiting (actor_turn w1)
                = Some (recv_result (msg_set_type t uninit_msg), w2)).
  { intros t Ht ->. rewrite Hpost.
    destruct (tx_notification_delivered me (msg_set_type t uninit_msg) w0
                {| mac := mac w; eng := eng w;
                   mbox := <[semtech_loramac_pid := [msg_set_type t uninit_msg]]>
                             (mbox w);
                   trace := trace w ++ [EvCallback (MacMcpsConfirm confirm)] |})
      as (Hst & _ & w2 & Hres & _); try done.
    - unfold queue; simpl. by rewrite lookup_insert_eq.
    - unfold queue in *; simpl. by rewrite lookup_insert_ne.
    - split; [exact Hst | by exists w2]. }
  subst wakes. split; [|split].
  - intros Hst Hreq.
    apply (Hwake MSG_TYPE_LORAMAC_TX_DONE); [by left|].
    subst w1. unfold run_callback, mcps_confirm.
    by rewrite decide_True, Hreq.
  - intros Hst.
    apply (Hwake MSG_TYPE_LORAMAC_TX_CNF_FAILED); [by right|].
    subst w1. unfold run_callback, mcps_confirm. by rewrite decide_False.
  - intros Hst Hreq.
    assert (Hw1 : w1 = with_trace (trace w ++ [EvCallback (MacMcpsConfirm confirm)]) w).
    { subst w1. unfold run_callback, mcps_confirm.
      rewrite decide_True by done.
      destruct (McpsConfirm_McpsRequest confirm); done. }
    rewrite Hw1. split; [|split; [reflexivity|]].
    + unfold actor_turn, msg_receive.
      change (queue semtech_loramac_pid (with_trace _ w))
        with (queue semtech_loramac_pid w). by rewrite Hq.
    + subst waiting. unfold eval. rewrite semtech_loramac_recv_unfold.
      unfold resume, msg_receive; simpl fst.
      change (queue me (with_trace _ w)) with (queue me w). by rewrite Hme.
Qed.

Lemma actor_turn_rx_notification msg indication q w :
  queue semtech_loramac_pid w = msg :: q ->
  type msg = MSG_TYPE_LORAMAC_RX ->
  content_ptr msg = ptr_McpsIndication indication ->
  actor_turn w =
    {| mac := set_state SEMTECH_LORAMAC_STATE_IDLE
                (set_rx_data
                   {| rx_payload :=
                        firstn (Z.to_nat (BufferSize indication)) (Buffer indication)
                        ++ skipn (Z.to_nat (BufferSize indication))
                                 (rx_payload (rx_data (mac w)));
                      rx_payload_len := BufferSize indication;
                      rx_port := Port indication;
                      rx_ack := AckReceived indication;
                      rx_multicast := Multicast indication;
                      rx_rssi := Rssi indication;
                      rx_datarate := RxDatarate indication |} (mac w));
       eng := eng w;
       mbox := <[caller_pid (mac w) :=
                   queue (caller_pid (mac w))
                         (with_mbox (<[semtech_loramac_pid := q]> (mbox w)) w)
                   ++ [msg_set_type MSG_TYPE_LORAMAC_RX uninit_msg]]>
                 (<[semtech_loramac_pid := q]> (mbox w));
       trace := trace w ++ [EvState SEMTECH_LORAMAC_STATE_IDLE] |}.
Proof.
  intros Hq Hty Hptr. rewrite (actor_turn_cons msg q) by exact Hq.
  unfold loop_body. rewrite Hty, Hptr. destruct w as [m e b t]. reflexivity.
Qed.

(** An RX notification in the actor's mailbox: the actor stores the
    frame and wakes the caller blocked in [semtech_loramac_recv]. *)
Lemma rx_notification_delivered me msg indication w0 w :
  me <> semtech_loramac_pid ->
  caller_pid (mac w) = me ->
  queue semtech_loramac_pid w = [msg] ->
  queue me w = [] ->
  type msg = MSG_TYPE_LORAMAC_RX ->
  content_ptr msg = ptr_McpsIndication indication ->
  state (mac (actor_turn w)) = SEMTECH_LORAMAC_STATE_IDLE /\
  rx_copied indication (rx_data (mac w)) (rx_data (mac (actor_turn w))) /\
  exists w2 : @world engine,
    resume me (eval (semtech_loramac_recv me) w0) (actor_turn w)
      = Some (ret8 SEMTECH_LORAMAC_DATA_RECEIVED, w2).
Proof.
  intros Hne Hcaller Hq Hme Hty Hptr.
  rewrite (actor_turn_rx_notification msg indication [] w Hq Hty Hptr).
  rewrite Hcaller, queue_insert_ne, Hme by done.
  split; [reflexivity | split].
  - unfold rx_copied. simpl mac. simpl rx_data.
    cbn [rx_payload rx_payload_len rx_port rx_rssi rx_datarate rx_ack
         rx_multicast].
    repeat (split; [reflexivity|]).
    set (n := Z.to_nat (BufferSize indication)).
    intros Hn.
    assert (Hlen : length (firstn n (Buffer indication)) = n)
      by (rewrite length_firstn; lia).
    split.
    + rewrite firstn_app, firstn_firstn, Nat.min_id, Hlen.
      by rewrite Nat.sub_diag, firstn_O, app_nil_r.
    + rewrite skipn_app, Hlen, Nat.sub_diag.
      rewrite (skipn_all2 (n := n)) by lia. reflexivity.
  - unfold eval. rewrite semtech_loramac_recv_unfold. simpl fst.
    match goal with |- context [resume me _ ?x] => set (w2 := x) end.
    assert (Hq2 : queue me w2 = [msg_set_type MSG_TYPE_LORAMAC_RX uninit_msg])
      by (unfold queue; simpl; by rewrite lookup_insert_eq).
    rewrite (resume_receive me _ _ [] w2 Hq2). by eexists.
Qed.

(** X4. Received data, from the engine to the caller.  On a quiet system
    with a caller blocked in [semtech_loramac_recv], an MCPS indication
    with status OK that carries data makes the actor copy length, port,
    RSSI, datarate, ack and multicast flags of the indication into the
    descriptor, together with the first [BufferSize] bytes of the buffer
    (the bytes of the stored payload beyond them are left as they were);
    the caller wakes up with DataReceived and the state is Idle.  Without
    the frame-pending flag this is the actor's next turn.  With the flag
    the next turn is the flush send, which copies nothing and wakes
    nobody, and the turn after it does the copy and wakes the caller.  An
    indication whose status is not OK changes nothing. *)
Theorem received_data_round_trip me indication w0 w :
  me <> semtech_loramac_pid ->
  caller_pid (mac w) = me ->
  queue semtech_loramac_pid w = [] ->
  queue me w = [] ->
  let w1 := exec (run_callback (MacMcpsIndication indication)) w in
  let waiting := eval (semtech_loramac_recv me) w0 in
  let received (w2 : @world engine) :=
    state (mac w2) = SEMTECH_LORAMAC_STATE_IDLE /\
    rx_copied indication (rx_data (mac w)) (rx_data (mac w2)) /\
    exists w3 : @world engine,
      resume me waiting w2 = Some (ret8 SEMTECH_LORAMAC_DATA_RECEIVED, w3) in
  (McpsIndication_Status indication <> LORAMAC_EVENT_INFO_STATUS_OK ->
   w1 = with_trace (trace w ++ [EvCallback (MacMcpsIndication indication)]) w) /\
  (McpsIndication_Status indication = LORAMAC_EVENT_INFO_STATUS_OK ->
   RxData indication = true ->
   FramePending indication = false ->
   received (actor_turn w1)) /\
  (McpsIndication_Status indication = LORAMAC_EVENT_INFO_STATUS_OK ->
   RxData indication = true ->
   FramePending indication = true ->
   rx_data (mac (actor_turn w1)) = rx_data (mac w) /\
   resume me waiting (actor_turn w1) = None /\
   received (actor_turn (actor_turn w1))).
Proof.
  intros Hne Hcaller Hq Hme w1 waiting received.
  set (m := msg_set_ptr (ptr_McpsIndication indication)
              (msg_set_type MSG_TYPE_LORAMAC_RX uninit_msg)).
  set (sched := msg_set_type MSG_TYPE_LORAMAC_TX_SCHEDULE uninit_msg).
  split; [|split].
  - intros Hst. subst w1. unfold run_callback, mcps_indication.
    by rewrite decide_True.
  - intros Hst Hrx Hfp.
    assert (Hw1 : w1 = {| mac := mac w; eng := eng w;
                          mbox := <[semtech_loramac_pid := [m]]> (mbox w);
                          trace := trace w ++
                            [EvCallback (MacMcpsIndication indication)] |}).
    { subst w1. unfold run_callback, mcps_indication.
      rewrite decide_False by (rewrite Hst; intros ?; done).
      rewrite Hrx, Hfp. unfold_M. unfold queue in *; simpl. by rewrite Hq. }
    subst received. cbv beta.
    destruct (rx_notification_delivered me m indication w0 w1)
      as (Hi & Hc & Hw); [exact Hne | | | | reflexivity | reflexivity |].
    + by rewrite Hw1.
    + rewrite Hw1. unfold queue; simpl. by rewrite lookup_insert_eq.
    + rewrite Hw1. unfold queue in *; simpl. by rewrite lookup_insert_ne.
    + split; [exact Hi | split; [|exact Hw]].
      replace (mac w) with (mac w1) by (by rewrite Hw1). exact Hc.
  - intros Hst Hrx Hfp.
    assert (Hw1 : w1 = {| mac := mac w; eng := eng w;
                          mbox := <[semtech_loramac_pid := [sched; m]]> (mbox w);
                          trace := trace w ++
                            [EvCallback (MacMcpsIndication indication)] |}).
    { subst w1. unfold run_callback, mcps_indication.
      rewrite decide_False by (rewrite Hst; intros ?; done).
      rewrite Hrx, Hfp. unfold_M. unfold queue in *; simpl.
      rewrite Hq, lookup_insert_eq, insert_insert_eq. reflexivity. }
    assert (Hturn : actor_turn w1
                    = exec (loop_body sched)
                        (with_mbox (<[semtech_loramac_pid := [m]]> (mbox w1)) w1)).
    { apply actor_turn_cons. rewrite Hw1. unfold queue; simpl.
      by rewrite lookup_insert_eq. }
    rewrite (flush_turn_engine sched _ eq_refl) in Hturn.
    cbn [mac eng mbox trace with_mbox] in Hturn.
    set (w2 := actor_turn w1) in *.
    assert (Hm1 : mac w1 = mac w) by (by rewrite Hw1).
    assert (Hm2 : rx_data (mac w2) = rx_data (mac w) /\
                  caller_pid (mac w2) = me).
    { rewrite Hturn. cbn [mac]. rewrite <- Hcaller, <- Hm1.
      by destruct (decide _). }
    destruct Hm2 as [Hrx2 Hcaller2].
    assert (Hq2 : queue semtech_loramac_pid w2 = [m]).
    { rewrite Hturn, Hw1. unfold queue; simpl.
      by rewrite lookup_insert_eq. }
    assert (Hme2 : queue me w2 = []).
    { rewrite Hturn, Hw1. unfold queue in *; simpl.
      by rewrite !lookup_insert_ne. }
    split; [exact Hrx2 | split].
    + subst waiting. unfold eval. rewrite semtech_loramac_recv_unfold.
      unfold resume, msg_receive; simpl fst. by rewrite Hme2.
    + subst received. cbv beta. rewrite <- Hrx2.
      by apply (rx_notification_delivered me m indication w0 w2).
Qed.

(** *** The flush send of the actor *)

Lemma set_port_restore p (m : semtech_loramac_t) :
  set_port (port m) (set_port p m) = m.
Proof. by destruct m. Qed.

Lemma set_port_restore_idle p (m : semtech_loramac_t) :
  set_port (port m) (set_state SEMTECH_LORAMAC_STATE_IDLE (set_port p m))
    = set_state SEMTECH_LORAMAC_STATE_IDLE m.
Proof. by destruct m. Qed.

(** One turn of the event loop on a schedule request, spelled out. *)
Lemma flush_turn msg w :
  type msg = MSG_TYPE_LORAMAC_TX_SCHEDULE ->
  exists q req st,
    empty_frame req /\
    (q = LORAMAC_STATUS_OK -> request_port req = 0) /\
    exec (loop_body msg) w =
      {| mac := if decide (st = LORAMAC_STATUS_OK) then mac w
                else set_state SEMTECH_LORAMAC_STATE_IDLE (mac w);
         eng := (LoRaMacMcpsRequest req (LoRaMacQueryTxPossible 0 (eng w)).2).2;
         mbox := mbox w;
         trace := (trace w ++ [EvEngine GetDr; EvEngine (QueryTxPossible 0 q);
                               EvEngine (McpsRequest req st)])
                  ++ (if decide (st = LORAMAC_STATUS_OK) then []
                      else [EvState SEMTECH_LORAMAC_STATE_IDLE]) |}.
Proof.
  intros Hty. destruct w as [m e b t]. unfold loop_body. rewrite Hty.
  unfold _semtech_loramac_send. unfold_M.
  destruct (LoRaMacQueryTxPossible 0 e) as [q e1] eqn:Hq; simpl.
  set (req := if decide (q <> LORAMAC_STATUS_OK) then _ else _).
  destruct (LoRaMacMcpsRequest req e1) as [st e2] eqn:Hr; simpl.
  exists q, req, st. split; [|split].
  - subst req. destruct (decide (q <> LORAMAC_STATUS_OK)); [done|].
    destruct (decide (cnf m = LORAMAC_TX_UNCNF)); done.
  - intros Hq'. subst req.
    destruct (decide (q <> LORAMAC_STATUS_OK)); [done|].
    destruct (decide (cnf m = LORAMAC_TX_UNCNF)); reflexivity.
  - rewrite Hr. clearbody req. clear Hr Hq.
    destruct m. destruct st; simpl; rewrite <- ?app_assoc; reflexivity.
Qed.

(** X5. The actor's handling of a schedule request makes exactly one
    transmit request, the one built for port 0 from the answer of
    [LoRaMacQueryTxPossible] to size zero: it has a NULL buffer of size
    zero, and its port is 0 whenever that answer is OK.  The engine is
    left as [LoRaMacMcpsRequest] leaves it.  The turn puts the uplink port
    of the descriptor back to what it was, posts no message to anyone,
    and changes the descriptor only if [LoRaMacMcpsRequest] does not
    answer OK: then the state is set to Idle, whatever it was. *)
Theorem schedule_request_flushes_once msg w :
  type msg = MSG_TYPE_LORAMAC_TX_SCHEDULE ->
  let w' := exec (loop_body msg) w in
  let q := LoRaMacQueryTxPossible 0 (eng w) in
  let req := mcps_request (set_port 0 (mac w)) q.1
               (semtech_loramac_get_dr (eng w)) None 0 in
  let a := LoRaMacMcpsRequest req q.2 in
  engine_calls (trace w')
    = engine_calls (trace w)
      ++ [GetDr; QueryTxPossible 0 q.1; McpsRequest req a.1] /\
  eng w' = a.2 /\
  empty_frame req /\
  (q.1 = LORAMAC_STATUS_OK -> request_port req = 0) /\
  port (mac w') = port (mac w) /\
  mbox w' = mbox w /\
  (a.1 = LORAMAC_STATUS_OK -> mac w' = mac w) /\
  (a.1 <> LORAMAC_STATUS_OK ->
   mac w' = set_state SEMTECH_LORAMAC_STATE_IDLE (mac w)).
Proof.
  intros Hty w' q req a. subst w'.
  rewrite (flush_turn_engine msg w Hty). fold q req a. cbn [mac eng mbox trace].
  split; [|split; [reflexivity | split; [|split; [|split; [|split; [done|split]]]]]].
  - rewrite !engine_calls_app. simpl.
    destruct (decide _); simpl; by rewrite app_nil_r.
  - subst req. unfold mcps_request.
    destruct (decide (q.1 <> LORAMAC_STATUS_OK)); [done|].
    destruct (decide _); done.
  - intros Hq. subst req. unfold mcps_request.
    destruct (decide (q.1 <> LORAMAC_STATUS_OK)); [done|].
    destruct (decide _); reflexivity.
  - by destruct (decide _).
  - intros Hst. by rewrite decide_True.
  - intros Hst. by rewrite decide_False.
Qed.

(** X6. Frame pending, end to end.  On a quiet system with a caller
    blocked in [semtech_loramac_recv], an MCPS indication with status OK,
    the frame-pending flag and no data makes the actor first perform one
    flush send (one transmit request, NULL buffer, size zero) and then, on
    its next turn, wake the caller with TxDone and set the state to Idle.
    An MLME schedule-uplink indication causes the same single flush send
    and wakes nobody. *)
Theorem pending_indication_flushes_then_reports me w0 w :
  me <> semtech_loramac_pid ->
  caller_pid (mac w) = me ->
  queue semtech_loramac_pid w = [] ->
  queue me w = [] ->
  let waiting := eval (semtech_loramac_recv me) w0 in
  let flushed (w1 w2 : @world engine) :=
    exists q req st,
      engine_calls (trace w2)
        = engine_calls (trace w1)
          ++ [GetDr; QueryTxPossible 0 q; McpsRequest req st] /\
      empty_frame req in
  (forall indication,
     McpsIndication_Status indication = LORAMAC_EVENT_INFO_STATUS_OK ->
     FramePending indication = true ->
     RxData indication = false ->
     let w1 := exec (run_callback (MacMcpsIndication indication)) w in
     flushed w1 (actor_turn w1) /\
     state (mac (actor_turn (actor_turn w1))) = SEMTECH_LORAMAC_STATE_IDLE /\
     engine_calls (trace (actor_turn (actor_turn w1)))
       = engine_calls (trace (actor_turn w1)) /\
     exists w2 : @world engine,
       resume me waiting (actor_turn (actor_turn w1))
         = Some (ret8 SEMTECH_LORAMAC_TX_DONE, w2)) /\
  (forall indication,
     MlmeIndication_MlmeIndication indication = MLME_SCHEDULE_UPLINK ->
     let w1 := exec (run_callback (MacMlmeIndication indication)) w in
     flushed w1 (actor_turn w1) /\
     resume me waiting (actor_turn w1) = None /\
     queue semtech_loramac_pid (actor_turn w1) = []).
Proof.
  intros Hne Hcaller Hq Hme waiting flushed.
  set (sched := msg_set_type MSG_TYPE_LORAMAC_TX_SCHEDULE uninit_msg).
  set (done_ := msg_set_type MSG_TYPE_LORAMAC_TX_DONE uninit_msg).
  split.
  - intros indication Hst Hfp Hrx w1.
    assert (Hw1 : w1 = {| mac := mac w; eng := eng w;
                          mbox := <[semtech_loramac_pid := [sched; done_]]> (mbox w);
                          trace := trace w ++
                            [EvCallback (MacMcpsIndication indication)] |}).
    { subst w1. unfold run_callback, mcps_indication.
      rewrite decide_False by (rewrite Hst; intros ?; done).
      rewrite Hrx, Hfp. unfold_M. unfold queue in *; simpl.
      rewrite Hq, lookup_insert_eq, insert_insert_eq. reflexivity. }
    assert (Hturn : actor_turn w1
                    = exec (loop_body sched)
                        (with_mbox (<[semtech_loramac_pid := [done_]]> (mbox w1)) w1)).
    { apply actor_turn_cons. rewrite Hw1. unfold queue; simpl.
      by rewrite lookup_insert_eq. }
    destruct (flush_turn sched
                (with_mbox (<[semtech_loramac_pid := [done_]]> (mbox w1)) w1)
                eq_refl) as (q & req & st & Hempty & _ & Hflush).
    rewrite Hflush in Hturn. cbn [mac eng mbox trace with_mbox] in Hturn.
    split; [|].
    { exists q, req, st. split; [|exact Hempty]. rewrite Hturn. cbn [trace].
      rewrite !engine_calls_app. simpl.
      destruct (decide _); simpl; by rewrite app_nil_r. }
    set (w2 := actor_turn w1) in *.
    assert (Hcaller2 : caller_pid (mac w2) = me).
    { rewrite Hturn. cbn [mac]. rewrite Hw1. cbn [mac].
      destruct (decide _); exact Hcaller. }
    assert (Hq2 : queue semtech_loramac_pid w2 = [done_]).
    { rewrite Hturn, Hw1. unfold queue; simpl.
      by rewrite lookup_insert_eq. }
    assert (Hme2 : queue me w2 = []).
    { rewrite Hturn, Hw1. unfold queue in *; simpl.
      by rewrite !lookup_insert_ne. }
    destruct (tx_notification_delivered me done_ w0 w2 Hne Hcaller2 Hq2 Hme2)
      as (Hidle & _ & w3 & Hres & _ & _); [by left|].
    split; [exact Hidle | split; [|by exists w3]].
    rewrite (actor_turn_tx_notification done_ [] w2 Hq2) by (by left).
    cbn [trace]. rewrite engine_calls_app. simpl. by rewrite app_nil_r.
  - intros indication Hind w1.
    assert (Hw1 : w1 = {| mac := mac w; eng := eng w;
                          mbox := <[semtech_loramac_pid := [sched]]> (mbox w);
                          trace := trace w ++
                            [EvCallback (MacMlmeIndication indication)] |}).
    { subst w1. unfold run_callback, mlme_indication. rewrite Hind.
      unfold_M. unfold queue in *; simpl. by rewrite Hq. }
    assert (Hturn : actor_turn w1
                    = exec (loop_body sched)
                        (with_mbox (<[semtech_loramac_pid := []]> (mbox w1)) w1)).
    { apply actor_turn_cons. rewrite Hw1. unfold queue; simpl.
      by rewrite lookup_insert_eq. }
    destruct (flush_turn sched
                (with_mbox (<[semtech_loramac_pid := []]> (mbox w1)) w1)
                eq_refl) as (q & req & st & Hempty & _ & Hflush).
    rewrite Hflush in Hturn. cbn [mac eng mbox trace with_mbox] in Hturn.
    split; [|split].
    + exists q, req, st. split; [|exact Hempty]. rewrite Hturn. cbn [trace].
      rewrite !engine_calls_app. simpl.
      destruct (decide _); simpl; by rewrite app_nil_r.
    + subst waiting. unfold eval. rewrite semtech_loramac_recv_unfold.
      unfold resume, msg_receive; simpl fst.
      rewrite Hturn, Hw1. unfold queue in *; simpl.
      by rewrite !lookup_insert_ne, Hme.
    + rewrite Hturn, Hw1. unfold queue; simpl. by rewrite lookup_insert_eq.
Qed.

(** *** More on joining *)

(** X7. An OTAA join whose request the engine rejects with any status
    other than the duty-cycle restriction (Busy included) ends as Failed:
    on a quiet system the actor's next turn delivers Failed to the caller
    and the state is Idle afterwards. *)
Theorem otaa_join_other_rejection_fails me w :
  state (mac w) = SEMTECH_LORAMAC_STATE_IDLE ->
  me <> semtech_loramac_pid ->
  queue semtech_loramac_pid w = [] ->
  queue me w = [] ->
  let j := semtech_loramac_join me LORAMAC_JOIN_OTAA w in
  let st :=
    (LoRaMacMlmeRequest (join_req (mac w))
       (LoRaMacMibSetRequestConfirm (Mib_IsNetworkJoined false) (eng w))).1 in
  st <> LORAMAC_STATUS_OK ->
  st <> LORAMAC_STATUS_DUTYCYCLE_RESTRICTED ->
  state (mac (actor_turn j.2)) = SEMTECH_LORAMAC_STATE_IDLE /\
  exists w2 : @world engine,
    resume me j.1 (actor_turn j.2)
      = Some (ret8 SEMTECH_LORAMAC_JOIN_FAILED, w2) /\
    state (mac w2) = SEMTECH_LORAMAC_STATE_IDLE.
Proof.
  intros Hidle Hne Hq Hme j st Hok Hdc.
  destruct (semtech_loramac_join_otaa_unfold me w Hidle Hq) as (k & Hk & Hj).
  cbv zeta in Hj. fold st in Hj. subst j. rewrite Hj. cbn [fst snd].
  destruct st eqn:Hst; try done;
    (apply join_result_delivered; try done;
     [ unfold queue; simpl; by rewrite lookup_insert_eq
     | unfold queue in *; simpl; by rewrite lookup_insert_ne ]).
Qed.

(** X8. A join whose type is neither OTAA nor ABP, issued while the state
    is Idle, is dispatched like any command: the actor sets the state to
    Busy and [_join] does nothing.  The call returns Succeeded and leaves
    the state Busy, so that a join issued in the state it returns in, by
    any thread and of any type, returns Busy and changes nothing.  On a
    quiet actor no request has reached the engine. *)
Theorem join_unknown_type_leaves_busy me n w :
  state (mac w) = SEMTECH_LORAMAC_STATE_IDLE ->
  let j := semtech_loramac_join me (LORAMAC_JOIN_OTHER n) w in
  j.1 = Return (ret8 SEMTECH_LORAMAC_JOIN_SUCCEEDED) /\
  state (mac j.2) = SEMTECH_LORAMAC_STATE_BUSY /\
  (queue semtech_loramac_pid w = [] ->
   eng j.2 = eng w /\ engine_calls (trace j.2) = engine_calls (trace w)) /\
  (forall me' join_type,
     semtech_loramac_join me' join_type j.2
       = (Return (ret8 SEMTECH_LORAMAC_BUSY), j.2)).
Proof.
  intros Hidle j.
  destruct (_semtech_loramac_call_spec (call_join (LORAMAC_JOIN_OTHER n))
              (with_mac (set_caller_pid me (mac w)) w)) as (w_mid & Hcall & Hemp).
  assert (Hj : j = (Return (ret8 SEMTECH_LORAMAC_JOIN_SUCCEEDED),
                    exec (assign_state SEMTECH_LORAMAC_STATE_BUSY) w_mid)).
  { subst j. unfold semtech_loramac_join, mbind, read_mac.
    rewrite decide_False by (rewrite Hidle; intros ?; done).
    unfold write_mac. rewrite Hcall.
    rewrite decide_False by done. reflexivity. }
  rewrite Hj. cbn [fst snd].
  assert (Hbusy : state (mac (exec (assign_state SEMTECH_LORAMAC_STATE_BUSY) w_mid))
                  = SEMTECH_LORAMAC_STATE_BUSY) by reflexivity.
  split; [reflexivity | split; [exact Hbusy | split]].
  - intros Hq. rewrite (Hemp Hq). split; [reflexivity|].
    unfold exec, assign_state, mbind, write_mac, log; simpl.
    rewrite engine_calls_app. simpl. by rewrite app_nil_r.
  - intros me' join_type. apply semtech_loramac_join_busy.
    rewrite Hbusy. discriminate.
Qed.


(** X10. [semtech_loramac_join] takes the first message of the caller's
    mailbox for the join result.  If a message was already waiting there
    when an OTAA join is issued, the call returns at once with the value
    that message carries and sets the state to Idle, although the engine
    has accepted the join request and has not confirmed it yet. *)
Theorem stale_message_ends_otaa_join me msg q w :
  state (mac w) = SEMTECH_LORAMAC_STATE_IDLE ->
  me <> semtech_loramac_pid ->
  queue semtech_loramac_pid w = [] ->
  queue me w = msg :: q ->
  (LoRaMacMlmeRequest (join_req (mac w))
     (LoRaMacMibSetRequestConfirm (Mib_IsNetworkJoined false) (eng w))).1
    = LORAMAC_STATUS_OK ->
  let j := semtech_loramac_join me LORAMAC_JOIN_OTAA w in
  exists w2 : @world engine,
    resume me j.1 j.2 = Some (uint8 (content_value msg), w2) /\
    state (mac w2) = SEMTECH_LORAMAC_STATE_IDLE /\
    queue me w2 = q /\
    callbacks_of (trace w2) = callbacks_of (trace w).
Proof.
  intros Hidle Hne Hq Hme Hst j.
  destruct (semtech_loramac_join_otaa_unfold me w Hidle Hq) as (k & Hk & Hj).
  cbv zeta in Hj. rewrite Hst in Hj. subst j. rewrite Hj. cbn [fst snd].
  match goal with |- context [resume me _ ?x] => set (w1 := x) end.
  assert (Hq1 : queue me w1 = msg :: q).
  { unfold w1, queue in *; simpl. by rewrite lookup_insert_ne. }
  rewrite (resume_receive me k msg q w1 Hq1), Hk.
  eexists. split; [reflexivity | split; [reflexivity | split]].
  - unfold queue; simpl. by rewrite lookup_insert_eq.
  - unfold callbacks_of. simpl. rewrite !omap_app. simpl.
    by rewrite !app_nil_r.
Qed.

(** X11. ABP join, then send.  For an engine whose MIB reports the
    network as joined once it has been set so, a send that follows an ABP
    join issued in state Idle passes both guards and returns TxScheduled:
    the ABP join has left the state Idle and the network joined. *)
Theorem abp_join_then_send_is_scheduled me data len w :
  (forall e, LoRaMacMibGetRequestConfirm_IsNetworkJoined
               (LoRaMacMibSetRequestConfirm (Mib_IsNetworkJoined true) e) = true) ->
  state (mac w) = SEMTECH_LORAMAC_STATE_IDLE ->
  let w1 := exec (semtech_loramac_join me LORAMAC_JOIN_ABP) w in
  state (mac w1) = SEMTECH_LORAMAC_STATE_IDLE /\
  LoRaMacMibGetRequestConfirm_IsNetworkJoined (eng w1) = true /\
  eval (semtech_loramac_send data len) w1 = ret8 SEMTECH_LORAMAC_TX_SCHEDULED.
Proof.
  intros Hlaw Hidle w1.
  destruct (_semtech_loramac_call_spec (call_join LORAMAC_JOIN_ABP)
              (with_mac (set_caller_pid me (mac w)) w)) as (w_mid & Hcall & _).
  assert (Hw1 : w1 = exec (mbind (assign_state SEMTECH_LORAMAC_STATE_BUSY)
                             (fun _ => call_func (call_join LORAMAC_JOIN_ABP)))
                       w_mid).
  { subst w1. unfold exec at 1, semtech_loramac_join, mbind at 1, read_mac.
    rewrite decide_False by (rewrite Hidle; intros ?; done).
    unfold mbind at 1, write_mac. unfold mbind at 1. rewrite Hcall.
    rewrite decide_False by done. reflexivity. }
  assert (Hst : state (mac w1) = SEMTECH_LORAMAC_STATE_IDLE)
    by (rewrite Hw1; by destruct w_mid).
  assert (Hj : LoRaMacMibGetRequestConfirm_IsNetworkJoined (eng w1) = true).
  { rewrite Hw1. destruct w_mid as [m e b t]. unfold_M. apply Hlaw. }
  split; [exact Hst | split; [exact Hj|]].
  unfold eval. rewrite semtech_loramac_send_unfold, Hj. simpl.
  by rewrite decide_False by (rewrite Hst; intros ?; done).
Qed.

(** *** The device address programmed by an ABP join *)

Lemma lor_shiftl_add a b n :
  0 <= n -> 0 <= b < 2 ^ n -> Z.lor (Z.shiftl a n) b = a * 2 ^ n + b.
Proof.
  intros Hn Hb. rewrite Z.shiftl_mul_pow2 by exact Hn.
  assert (Hland : Z.land (a * 2 ^ n) b = 0).
  { apply Z.bits_inj'. intros k Hk. rewrite Z.land_spec, Z.bits_0.
    destruct (Z.ltb_spec k n) as [Hlt|Hge].
    - by rewrite Z.mul_pow2_bits_low.
    - rewrite andb_false_iff. right. apply Z.testbit_false; [exact Hk|].
      rewrite Z.div_small; [reflexivity|].
      split; [lia|]. apply Z.lt_le_trans with (2 ^ n); [lia|].
      apply Z.pow_le_mono_r; lia. }
  rewrite <- Z.lxor_lor by exact Hland.
  symmetry. by apply Z.add_nocarry_lxor.
Qed.

(** X12. The device address that [_join_abp] hands to the engine is the
    big-endian reading of the four bytes of [mac->devaddr]: for bytes in
    0..255 the word is b0*2^24 + b1*2^16 + b2*2^8 + b3, it fits 32 bits,
    and each byte can be read back from it. *)
Theorem devaddr_word_big_endian b0 b1 b2 b3 :
  0 <= b0 < 256 -> 0 <= b1 < 256 -> 0 <= b2 < 256 -> 0 <= b3 < 256 ->
  let a := devaddr_word [b0; b1; b2; b3] in
  a = b0 * 2 ^ 24 + b1 * 2 ^ 16 + b2 * 2 ^ 8 + b3 /\
  0 <= a < 2 ^ 32 /\
  (a / 2 ^ 24) mod 256 = b0 /\ (a / 2 ^ 16) mod 256 = b1 /\
  (a / 2 ^ 8) mod 256 = b2 /\ a mod 256 = b3.
Proof.
  intros H0 H1 H2 H3 a.
  assert (Ha : a = b0 * 2 ^ 24 + b1 * 2 ^ 16 + b2 * 2 ^ 8 + b3).
  { subst a. unfold devaddr_word, uint32. simpl nth.
    rewrite (Z.shiftl_mul_pow2 b1), (Z.shiftl_mul_pow2 b2) by lia.
    rewrite (Z.mod_small (b1 * 2 ^ 16)), (Z.mod_small (b2 * 2 ^ 8)) by lia.
    rewrite (Z.mod_small (Z.shiftl b0 24))
      by (rewrite Z.shiftl_mul_pow2 by lia; lia).
    rewrite (lor_shiftl_add b0 (b1 * 2 ^ 16) 24) by lia.
    replace (b0 * 2 ^ 24 + b1 * 2 ^ 16)
      with (Z.shiftl (b0 * 2 ^ 8 + b1) 16)
      by (rewrite Z.shiftl_mul_pow2 by lia; lia).
    rewrite (lor_shiftl_add _ (b2 * 2 ^ 8) 16) by lia.
    replace ((b0 * 2 ^ 8 + b1) * 2 ^ 16 + b2 * 2 ^ 8)
      with (Z.shiftl (b0 * 2 ^ 16 + b1 * 2 ^ 8 + b2) 8)
      by (rewrite Z.shiftl_mul_pow2 by lia; lia).
    rewrite (lor_shiftl_add _ b3 8) by lia.
    rewrite ?Z.shiftl_mul_pow2 by lia. lia. }
  rewrite Ha. split; [reflexivity | split; [lia|]].
  repeat split.
  - replace (b0 * 2 ^ 24 + b1 * 2 ^ 16 + b2 * 2 ^ 8 + b3)
      with (b1 * 2 ^ 16 + b2 * 2 ^ 8 + b3 + b0 * 2 ^ 24) by lia.
    rewrite Z.div_add by lia. rewrite Z.div_small by lia.
    rewrite Z.mod_small; lia.
  - replace (b0 * 2 ^ 24 + b1 * 2 ^ 16 + b2 * 2 ^ 8 + b3)
      with (b2 * 2 ^ 8 + b3 + (b0 * 2 ^ 8 + b1) * 2 ^ 16) by lia.
    rewrite Z.div_add by lia. rewrite Z.div_small by lia.
    replace (0 + (b0 * 2 ^ 8 + b1)) with (b1 + b0 * 256) by lia.
    rewrite Z.mod_add by lia. rewrite Z.mod_small; lia.
  - replace (b0 * 2 ^ 24 + b1 * 2 ^ 16 + b2 * 2 ^ 8 + b3)
      with (b3 + (b0 * 2 ^ 16 + b1 * 2 ^ 8 + b2) * 2 ^ 8) by lia.
    rewrite Z.div_add by lia. rewrite Z.div_small by lia.
    replace (0 + (b0 * 2 ^ 16 + b1 * 2 ^ 8 + b2))
      with (b2 + (b0 * 2 ^ 8 + b1) * 256) by lia.
    rewrite Z.mod_add by lia. rewrite Z.mod_small; lia.
  - replace (b0 * 2 ^ 24 + b1 * 2 ^ 16 + b2 * 2 ^ 8 + b3)
      with (b3 + (b0 * 2 ^ 16 + b1 * 2 ^ 8 + b2) * 256) by lia.
    rewrite Z.mod_add by lia. rewrite Z.mod_small; lia.
Qed.

(** *** The transmit request of a send *)

Lemma int8_range z : - 2 ^ 7 <= int8 z < 2 ^ 7.
Proof.
  unfold int8. pose proof (Z.mod_pos_bound z (2 ^ 8) ltac:(lia)).
  cbv zeta. destruct (Z.ltb_spec (z mod 2 ^ 8) (2 ^ 7)); lia.
Qed.

(** X13. Every run of [_semtech_loramac_send] makes exactly one transmit
    request, after one datarate read and one queue query.  When the engine
    says the frame can be queued, the request carries the caller's buffer
    and length and the uplink port of the descriptor, unconfirmed if the
    mode is [LORAMAC_TX_UNCNF] and confirmed, with the configured number
    of trials, for any other mode.  The datarate of the request is the
    current datarate converted to a signed byte: it lies in -128..127,
    equals the datarate below 128 and is the datarate minus 256 from 128
    on. *)
Theorem send_builds_one_request payload len w :
  let w' := exec (_semtech_loramac_send payload len) w in
  let dr := semtech_loramac_get_dr (eng w) in
  exists q req st,
    engine_calls (trace w')
      = engine_calls (trace w)
        ++ [GetDr; QueryTxPossible len q; McpsRequest req st] /\
    q = (LoRaMacQueryTxPossible len (eng w)).1 /\
    (q = LORAMAC_STATUS_OK ->
     req = if decide (cnf (mac w) = LORAMAC_TX_UNCNF)
           then McpsReq_Unconfirmed (port (mac w)) payload len
                  (request_datarate req)
           else McpsReq_Confirmed (port (mac w)) payload len (trials (mac w))
                  (request_datarate req)) /\
    - 128 <= request_datarate req < 128 /\
    (0 <= dr < 128 -> request_datarate req = dr) /\
    (128 <= dr < 256 -> request_datarate req = dr - 256).
Proof.
  intros w' dr. subst w'. unfold exec.
  rewrite _semtech_loramac_send_unfold. cbv zeta.
  set (q := (LoRaMacQueryTxPossible len (eng w)).1).
  match goal with |- context [McpsRequest ?r ?s] => exists q, r, s end.
  assert (Hdr : forall req : McpsReq_t,
            request_datarate req = int8 (uint8 dr) ->
            - 128 <= request_datarate req < 128 /\
            (0 <= dr < 128 -> request_datarate req = dr) /\
            (128 <= dr < 256 -> request_datarate req = dr - 256)).
  { intros req ->. split; [apply int8_range|].
    unfold int8, uint8. rewrite Z.mod_mod by lia. cbv zeta.
    split; intros Hr; rewrite Z.mod_small by lia;
      destruct (Z.ltb_spec dr (2 ^ 7)); lia. }
  split; [|split; [reflexivity | split]].
  - destruct (decide _); cbn [snd trace]; rewrite !engine_calls_app; simpl;
      by rewrite ?app_nil_r.
  - intros Hq. destruct (decide (q <> LORAMAC_STATUS_OK)); [done|].
    destruct (decide (cnf (mac w) = LORAMAC_TX_UNCNF)); reflexivity.
  - apply Hdr. destruct (decide (q <> LORAMAC_STATUS_OK)); [reflexivity|].
    destruct (decide (cnf (mac w) = LORAMAC_TX_UNCNF)); reflexivity.
Qed.

(** *** Link check, there and back *)

(** X14. [semtech_loramac_request_link_check] has no guard: whatever the
    state, it clears the available flag and makes one MLME link-check
    request, whose status it ignores; it changes nothing else.  When the
    engine later confirms the link check with status OK on a quiet
    system, the actor's next turn stores the margin and the gateway count
    of that confirm with the flag set, keeps state and recorded caller,
    and posts nothing to any other thread. *)
Theorem link_check_round_trip :
  (forall w,
     let r := LoRaMacMlmeRequest MlmeReq_LinkCheck (eng w) in
     exec semtech_loramac_request_link_check w
       = {| mac := set_available false (mac w); eng := r.2; mbox := mbox w;
            trace := trace w ++ [EvEngine (MlmeRequest MlmeReq_LinkCheck r.1)] |}) /\
  (forall confirm w,
     queue semtech_loramac_pid w = [] ->
     link_check_ok confirm ->
     let w2 := actor_turn (exec (run_callback (MacMlmeConfirm confirm)) w) in
     link_chk (mac w2)
       = {| demod_margin := DemodMargin confirm;
            nb_gateways := NbGateways confirm;
            available := true |} /\
     state (mac w2) = state (mac w) /\
     caller_pid (mac w2) = caller_pid (mac w) /\
     queue semtech_loramac_pid w2 = [] /\
     forall pid, pid <> semtech_loramac_pid -> queue pid w2 = queue pid w).
Proof.
  split.
  - intros w r. subst r. destruct w as [m e b t].
    unfold semtech_loramac_request_link_check. unfold_M.
    by destruct (LoRaMacMlmeRequest MlmeReq_LinkCheck e).
  - intros confirm w Hq [Hreq Hst] w2.
    assert (Hw1 : exec (run_callback (MacMlmeConfirm confirm)) w
                  = {| mac := mac w; eng := eng w;
                       mbox := <[semtech_loramac_pid := [link_check_msg confirm]]>
                                 (mbox w);
                       trace := trace w ++ [EvCallback (MacMlmeConfirm confirm)] |}).
    { unfold run_callback, mlme_confirm. rewrite Hreq, decide_True by done.
      unfold_M. unfold queue in *; simpl. by rewrite Hq. }
    assert (Hturn : w2 = exec (loop_body (link_check_msg confirm))
                           (with_mbox (<[semtech_loramac_pid := []]>
                                         (mbox (exec (run_callback
                                                        (MacMlmeConfirm confirm)) w)))
                              (exec (run_callback (MacMlmeConfirm confirm)) w))).
    { subst w2. apply actor_turn_cons. rewrite Hw1.
      unfold queue; simpl. by rewrite lookup_insert_eq. }
    rewrite Hturn, Hw1.
    split; [reflexivity | split; [reflexivity | split; [reflexivity | split]]].
    + unfold queue; simpl. by rewrite lookup_insert_eq.
    + intros pid Hne. unfold queue; simpl. by rewrite !lookup_insert_ne.
Qed.

(** *** Events deferred to the actor *)

Lemma run_callback_spec c w :
  let w' := exec (run_callback c) w in
  mac w' = mac w /\ eng w' = eng w /\ trace w' = trace w ++ [EvCallback c].
Proof.
  destruct w as [m e b t].
  destruct c as [c|i|c|i]; unfold run_callback.
  - unfold mcps_confirm. destruct (decide _); [destruct (McpsConfirm_McpsRequest c)|];
      done.
  - unfold mcps_indication. destruct (decide _); [done|].
    destruct (FramePending i), (RxData i); done.
  - unfold mlme_confirm. destruct (MlmeConfirm_MlmeRequest c);
      try destruct (decide _); done.
  - unfold mlme_indication. destruct (MlmeIndication_MlmeIndication i); done.
Qed.

Lemma run_callbacks_spec cbs : forall w,
  let w' := exec (mapM_ run_callback cbs) w in
  mac w' = mac w /\ eng w' = eng w /\
  trace w' = trace w ++ map EvCallback cbs.
Proof.
  induction cbs as [|c cbs IH]; intros w; simpl.
  - by rewrite app_nil_r.
  - rewrite exec_mbind.
    destruct (run_callback_spec c w) as (Hm & He & Ht).
    destruct (IH (exec (run_callback c) w)) as (Hm' & He' & Ht').
    rewrite Hm', He', Ht', Hm, He, Ht. by rewrite <- app_assoc.
Qed.

(** Engine code that runs and calls back: the engine moves on, the
    descriptor stays, and the record shows the call followed by the
    callbacks. *)
Lemma engine_run_spec f ev w :
  let w' := exec (engine_run f ev) w in
  mac w' = mac w /\ eng w' = (f (eng w)).2 /\
  trace w' = trace w ++ EvEngine ev :: map EvCallback (f (eng w)).1.
Proof.
  unfold engine_run. rewrite exec_mbind.
  set (w1 := exec (engine_call_ret f (fun _ => ev)) w).
  assert (H1 : mac w1 = mac w /\ eng w1 = (f (eng w)).2 /\
               trace w1 = trace w ++ [EvEngine ev] /\
               eval (engine_call_ret f (fun _ => ev)) w = (f (eng w)).1).
  { subst w1. unfold exec, eval, engine_call_ret.
    by destruct (f (eng w)). }
  destruct H1 as (Hm & He & Ht & Hv). rewrite Hv.
  destruct (run_callbacks_spec (f (eng w)).1 w1) as (Hm' & He' & Ht').
  rewrite Hm', He', Ht', Hm, He, Ht. by rewrite <- app_assoc.
Qed.

Lemma engine_calls_callbacks cbs : engine_calls (map EvCallback cbs) = [].
Proof. by induction cbs. Qed.

Lemma callbacks_of_callbacks cbs : callbacks_of (map EvCallback cbs) = cbs.
Proof. induction cbs as [|c cbs IH]; [done|]. simpl. by rewrite IH. Qed.

(** X15. Timeouts and timer expiries reach the engine on the actor's
    turn, not where they are raised.  The netdev callback, for an RX or TX
    timeout event, only posts a message: descriptor, engine and record are
    untouched.  On a quiet system the actor's next turn then makes exactly
    one call into the engine, the matching radio handler, and runs the
    primitives the engine calls back, in order, without touching the
    descriptor.  The same holds for a timer expiry and the function it
    carries. *)
Theorem deferred_events_reach_engine w :
  queue semtech_loramac_pid w = [] ->
  let reaches (w1 : @world engine) f call :=
    mac w1 = mac w /\ eng w1 = eng w /\ trace w1 = trace w /\
    mac (actor_turn w1) = mac w /\
    eng (actor_turn w1) = (f (eng w)).2 /\
    engine_calls (trace (actor_turn w1)) = engine_calls (trace w) ++ [call] /\
    callbacks_of (trace (actor_turn w1))
      = callbacks_of (trace w) ++ (f (eng w)).1 in
  reaches (exec (_semtech_loramac_event_cb NETDEV_EVENT_RX_TIMEOUT) w)
          (radio_events RadioRxTimeout) (RadioEvent RadioRxTimeout) /\
  reaches (exec (_semtech_loramac_event_cb NETDEV_EVENT_TX_TIMEOUT) w)
          (radio_events RadioTxTimeout) (RadioEvent RadioTxTimeout) /\
  (forall cb,
     reaches (exec (msg_send (msg_set_ptr (ptr_callback cb)
                                (msg_set_type MSG_TYPE_MAC_TIMEOUT uninit_msg))
                             semtech_loramac_pid) w)
             (timer_callback cb) (TimerCallback cb)).
Proof.
  intros Hq reaches.
  assert (Hgen : forall msg f call,
            (forall w0 : @world engine,
               exec (loop_body msg) w0 = exec (engine_run f call) w0) ->
            reaches (exec (msg_send msg semtech_loramac_pid) w) f call).
  { intros msg f call Hbody. subst reaches. cbv beta.
    set (w1 := exec (msg_send msg semtech_loramac_pid) w).
    assert (Hturn : actor_turn w1
                    = exec (engine_run f call)
                        (with_mbox (<[semtech_loramac_pid := []]> (mbox w1)) w1)).
    { rewrite <- Hbody. apply actor_turn_cons. subst w1.
      unfold exec, msg_send; simpl. by rewrite queue_insert_eq, Hq. }
    destruct (engine_run_spec f call
                (with_mbox (<[semtech_loramac_pid := []]> (mbox w1)) w1))
      as (Hm & He & Ht).
    rewrite Hturn, Hm, He, Ht.
    repeat split; try reflexivity.
    - simpl. rewrite engine_calls_app. simpl.
      by rewrite engine_calls_callbacks.
    - simpl. unfold callbacks_of at 1. rewrite omap_app. simpl.
      fold (callbacks_of (map EvCallback (f (eng w)).1)).
      by rewrite callbacks_of_callbacks. }
  split; [|split].
  - apply (Hgen (msg_set_type MSG_TYPE_RX_TIMEOUT
                   (msg_set_ptr ptr_netdev uninit_msg))). reflexivity.
  - apply (Hgen (msg_set_type MSG_TYPE_TX_TIMEOUT
                   (msg_set_ptr ptr_netdev uninit_msg))). reflexivity.
  - intros cb. apply Hgen. reflexivity.
Qed.

(** *** Netdev events forwarded at once *)

(** X16. The netdev events that are not deferred.  On TX complete the
    radio is put to sleep first and the engine's TxDone handler runs
    next.  On RX complete the driver is asked twice, first for the size
    of the frame and then for the frame and its packet information, and
    the engine's RxDone handler runs next, on that frame, that size and
    the RSSI and SNR just read.  CRC error, FHSS channel change and CAD
    done make one call each, to the matching radio handler, the last two
    with the channel and the CAD result the device structure holds.  In
    every case the calls listed are the only ones made, the primitives
    called back are the ones the handler asked for, in order, and the
    descriptor is left alone.  CAD detected, valid header and unknown
    events are ignored altogether. *)
Theorem netdev_events_forwarded_at_once w :
  let forwards ev (before : list engine_call) (e0 : engine) r :=
    let w' := exec (_semtech_loramac_event_cb ev) w in
    mac w' = mac w /\
    eng w' = (radio_events r e0).2 /\
    engine_calls (trace w') = engine_calls (trace w) ++ before ++ [RadioEvent r] /\
    callbacks_of (trace w')
      = callbacks_of (trace w) ++ (radio_events r e0).1 in
  let len := driver_recv_size (eng w) in
  let fr := driver_recv len.1 len.2 in
  forwards NETDEV_EVENT_TX_COMPLETE [DriverSetSleep]
           (sx127x_set_sleep (eng w)) RadioTxDone /\
  forwards NETDEV_EVENT_RX_COMPLETE
           [DriverRecvSize len.1; DriverRecv len.1 fr.1.1 fr.1.2] fr.2
           (RadioRxDone fr.1.1 len.1 (rssi fr.1.2) (snr fr.1.2)) /\
  forwards NETDEV_EVENT_CRC_ERROR [] (eng w) RadioRxError /\
  forwards NETDEV_EVENT_FHSS_CHANGE_CHANNEL [] (eng w)
           (RadioFhssChangeChannel (last_channel (eng w))) /\
  forwards NETDEV_EVENT_CAD_DONE [] (eng w)
           (RadioCadDone (is_last_cad_success (eng w))) /\
  exec (_semtech_loramac_event_cb NETDEV_EVENT_CAD_DETECTED) w = w /\
  exec (_semtech_loramac_event_cb NETDEV_EVENT_VALID_HEADER) w = w /\
  (forall n, exec (_semtech_loramac_event_cb (NETDEV_EVENT_OTHER n)) w = w).
Proof.
  intros forwards len fr.
  assert (Hrun : forall (w0 : @world engine) r,
            let w' := exec (engine_run (radio_events r) (RadioEvent r)) w0 in
            mac w' = mac w0 /\
            eng w' = (radio_events r (eng w0)).2 /\
            engine_calls (trace w')
              = engine_calls (trace w0) ++ [RadioEvent r] /\
            callbacks_of (trace w')
              = callbacks_of (trace w0) ++ (radio_events r (eng w0)).1).
  { intros w0 r w'. subst w'.
    destruct (engine_run_spec (radio_events r) (RadioEvent r) w0)
      as (Hm & He & Ht).
    rewrite Hm, He, Ht. repeat split.
    - rewrite engine_calls_app. simpl. by rewrite engine_calls_callbacks.
    - unfold callbacks_of at 1. rewrite omap_app. simpl.
      fold (callbacks_of (map EvCallback (radio_events r (eng w0)).1)).
      by rewrite callbacks_of_callbacks. }
  subst forwards. cbv beta zeta.
  split; [|split; [|repeat split; try apply (Hrun w); by destruct w]].
  - unfold _semtech_loramac_event_cb. rewrite exec_mbind.
    set (w1 := exec (engine_call_void sx127x_set_sleep DriverSetSleep) w).
    destruct (Hrun w1 RadioTxDone) as (Hm & He & Hc & Hcb).
    rewrite Hm, He, Hc, Hcb. subst w1. unfold exec, engine_call_void; simpl.
    repeat split.
    + rewrite engine_calls_app. simpl. by rewrite <- app_assoc.
    + unfold callbacks_of at 1. rewrite omap_app. simpl. by rewrite app_nil_r.
  - unfold _semtech_loramac_event_cb. rewrite !exec_mbind.
    set (w1 := exec (engine_call_ret driver_recv_size DriverRecvSize) w).
    assert (H1 : mac w1 = mac w /\ eng w1 = len.2 /\
                 trace w1 = trace w ++ [EvEngine (DriverRecvSize len.1)] /\
                 eval (engine_call_ret driver_recv_size DriverRecvSize) w = len.1).
    { subst w1 len. unfold exec, eval, engine_call_ret.
      by destruct (driver_recv_size (eng w)). }
    destruct H1 as (Hm1 & He1 & Ht1 & ->).
    set (c2 := engine_call_ret (driver_recv len.1)
                 (fun fr => DriverRecv len.1 fr.1 fr.2)).
    set (w2 := exec c2 w1).
    assert (H2 : mac w2 = mac w /\ eng w2 = fr.2 /\
                 trace w2 = trace w ++ [EvEngine (DriverRecvSize len.1);
                                        EvEngine (DriverRecv len.1 fr.1.1 fr.1.2)] /\
                 eval c2 w1 = fr.1).
    { subst w2 c2 fr. unfold exec, eval, engine_call_ret. rewrite He1.
      destruct (driver_recv len.1 len.2) as [[pl info] e2]; simpl.
      rewrite Hm1, Ht1, <- app_assoc. done. }
    destruct H2 as (Hm2 & He2 & Ht2 & ->).
    destruct (Hrun w2 (RadioRxDone fr.1.1 len.1 (rssi fr.1.2) (snr fr.1.2)))
      as (Hm & He & Hc & Hcb).
    rewrite Hm, He, Hc, Hcb, Hm2, He2, Ht2.
    repeat split.
    + rewrite engine_calls_app. simpl. by rewrite <- app_assoc.
    + unfold callbacks_of at 1. rewrite omap_app. simpl. by rewrite app_nil_r.
Qed.

(** *** The ADC sample time *)

(** X17. For a sample time that fits three bits (0..7, the eight
    [ADC_SAMPLE_TIME_*] settings), [adc_set_sample_time] writes the same
    word to [SMPR1], [SMPR2] and [SMPR3], and to [SMPR0] unless the part
    is a medium-density one, in which case [SMPR0] is left alone; each of
    the ten three-bit fields of that word holds the sample time, and the
    two top bits of the word are clear. *)
Theorem adc_sample_time_fills_all_fields (STM32L1XX_MD : bool) time r :
  0 <= time <= 7 ->
  let r' := adc_set_sample_time STM32L1XX_MD time r in
  SMPR2 r' = SMPR1 r' /\ SMPR3 r' = SMPR1 r' /\
  SMPR0 r' = (if STM32L1XX_MD then SMPR0 r else SMPR1 r') /\
  0 <= SMPR1 r' < 2 ^ 30 /\
  forall i, 0 <= i <= 9 -> Z.land (Z.shiftr (SMPR1 r') (i * 3)) 7 = time.
Proof.
  intros Ht r'. subst r'. unfold adc_set_sample_time. cbn [SMPR0 SMPR1 SMPR2 SMPR3].
  split; [reflexivity | split; [reflexivity | split; [reflexivity|]]].
  assert (Hcases : time = 0 \/ time = 1 \/ time = 2 \/ time = 3 \/
                   time = 4 \/ time = 5 \/ time = 6 \/ time = 7) by lia.
  split.
  - repeat destruct Hcases as [-> | Hcases]; try subst time; vm_compute;
      split; congruence.
  - intros i Hi.
    assert (Hi' : i = 0 \/ i = 1 \/ i = 2 \/ i = 3 \/ i = 4 \/ i = 5 \/
                  i = 6 \/ i = 7 \/ i = 8 \/ i = 9) by lia.
    clear Hi Ht.
    repeat destruct Hcases as [-> | Hcases]; try subst time;
      repeat destruct Hi' as [-> | Hi']; try subst i; reflexivity.
Qed.

End Properties.

(** ** The theorems at work on the scripted engine *)

Lemma busy_guard_witness :
  semtech_loramac_join 7 LORAMAC_JOIN_OTAA (world_busy engine0)
    = (Return (ret8 SEMTECH_LORAMAC_BUSY), world_busy engine0).
Proof.
  destruct (busy_guard (world_busy engine0)) as [Hjoin _]; [discriminate|].
  apply Hjoin.
Defined.

(** C1 fails as stated: with an operation in flight and the network not
    joined, [send] returns NotJoined, not Busy, and it has called the
    engine once. *)
Lemma busy_send_counterexample :
  state (mac (world_busy engine0)) = SEMTECH_LORAMAC_STATE_BUSY /\
  eval (semtech_loramac_send (Some [1; 2]) 2) (world_busy engine0)
    = ret8 SEMTECH_LORAMAC_NOT_JOINED /\
  ret8 SEMTECH_LORAMAC_NOT_JOINED <> ret8 SEMTECH_LORAMAC_BUSY /\
  engine_calls (trace (exec (semtech_loramac_send (Some [1; 2]) 2)
                            (world_busy engine0)))
    = [MibGetRequestConfirm MIB_NETWORK_JOINED] /\
  ~ busy_calls_return_busy_without_engine (world_busy engine0).
Proof.
  split; [reflexivity | split; [reflexivity | split; [discriminate | split]]].
  - reflexivity.
  - intros Hclaim. destruct Hclaim as [_ Hsend]; [discriminate|].
    destruct (Hsend (Some [1; 2]) 2) as [Hret _]. vm_compute in Hret.
    discriminate Hret.
Qed.



Lemma abp_join_synchronous_witness :
  exists w',
    semtech_loramac_join 7 LORAMAC_JOIN_ABP (world0 engine0)
      = (Return (ret8 SEMTECH_LORAMAC_JOIN_SUCCEEDED), w') /\
    state (mac w') = SEMTECH_LORAMAC_STATE_IDLE.
Proof.
  destruct (abp_join_synchronous 7 (world0 engine0))
    as (w_mid & w' & Hj & Hst & _); [reflexivity|].
  exists w'. split; [exact Hj | exact Hst].
Defined.

(** C3 fails as stated: the actor assigns Busy to the state before it
    runs the ABP join. *)
Lemma abp_join_busy_counterexample :
  state (mac (world0 engine0)) = SEMTECH_LORAMAC_STATE_IDLE /\
  state_writes (trace (exec (semtech_loramac_join 7 LORAMAC_JOIN_ABP)
                            (world0 engine0)))
    = [SEMTECH_LORAMAC_STATE_BUSY; SEMTECH_LORAMAC_STATE_IDLE] /\
  ~ abp_join_never_busy (world0 engine0).
Proof.
  split; [reflexivity | split; [reflexivity|]].
  intros Hclaim. destruct (Hclaim eq_refl 7) as [_ Hnever]; [discriminate|].
  apply (Hnever (abp_join_record mac0)); [reflexivity|].
  simpl. by left.
Qed.

Lemma not_joined_guard_witness :
  eval (semtech_loramac_send (Some [1; 2]) 2) (world0 engine0)
    = ret8 SEMTECH_LORAMAC_NOT_JOINED.
Proof.
  destruct (not_joined_guard (Some [1; 2]) 2 (world0 engine0)) as [Hret _];
    [reflexivity|].
  exact Hret.
Defined.

(** C4 fails as stated: the joined flag is read from the engine, which is
    a call into it. *)
Lemma not_joined_send_counterexample :
  LoRaMacMibGetRequestConfirm_IsNetworkJoined (eng (world0 engine0)) = false /\
  engine_calls (trace (world0 engine0)) = [] /\
  engine_calls (trace (exec (semtech_loramac_send (Some [1; 2]) 2)
                            (world0 engine0)))
    = [MibGetRequestConfirm MIB_NETWORK_JOINED] /\
  ~ not_joined_send_without_engine (world0 engine0).
Proof.
  split; [reflexivity | split; [reflexivity | split; [reflexivity|]]].
  intros Hclaim. destruct (Hclaim eq_refl (Some [1; 2]) 2) as [_ Hcalls].
  vm_compute in Hcalls. discriminate Hcalls.
Qed.

Lemma mcps_confirm_emits_witness :
  exec (mcps_confirm {| McpsConfirm_Status := LORAMAC_EVENT_INFO_STATUS_OK;
                        McpsConfirm_McpsRequest := MCPS_UNCONFIRMED |})
       (world0 engine0)
    = with_mbox (<[semtech_loramac_pid :=
                     [msg_set_type MSG_TYPE_LORAMAC_TX_DONE uninit_msg]]> ∅)
                (world0 engine0).
Proof.
  destruct (mcps_confirm_emits
              {| McpsConfirm_Status := LORAMAC_EVENT_INFO_STATUS_OK;
                 McpsConfirm_McpsRequest := MCPS_UNCONFIRMED |}
              (world0 engine0)) as [Hok _].
  exact (Hok eq_refl eq_refl).
Defined.

Lemma send_substitutes_empty_frame_witness :
  engine_calls (trace (exec (_semtech_loramac_send (Some [1; 2]) 2)
                            (world0 engine_no_room)))
    = [GetDr; QueryTxPossible 2 (LORAMAC_STATUS_ERROR 8);
       McpsRequest (McpsReq_Unconfirmed 0 None 0 5) LORAMAC_STATUS_OK].
Proof.
  destruct (send_substitutes_empty_frame (Some [1; 2]) 2 (world0 engine_no_room))
    as [[_ Hcalls] _]; [discriminate|].
  exact Hcalls.
Defined.

Lemma send_rejection_returns_to_idle_witness :
  (semtech_loramac_send (Some [1; 2]) 2 (world0 engine_rejecting)).1
    = ret8 SEMTECH_LORAMAC_TX_SCHEDULED /\
  state (mac (semtech_loramac_send (Some [1; 2]) 2 (world0 engine_rejecting)).2)
    = SEMTECH_LORAMAC_STATE_IDLE.
Proof.
  destruct (@send_rejection_returns_to_idle scripted _ _) as (_ & _ & Hsend).
  destruct (Hsend (Some [1; 2]) 2 (world0 engine_rejecting) eq_refl eq_refl)
    as (Hret & w_mid & Hmid & _ & _ & Hrej & _).
  split; [exact Hret|]. apply Hrej.
  rewrite (Hmid eq_refl). discriminate.
Defined.

Lemma world_link_checked_reachable : reachable world_link_checked.
Proof.
  exists (exec _init_loramac (world0 engine_link_check)). split.
  - exists (world0 engine_link_check). repeat split; discriminate.
  - eapply rtc_l; [apply step_request_link_check|].
    eapply rtc_l; [apply (step_timer 0)|].
    eapply rtc_l; [apply step_actor|].
    eapply rtc_l; [apply step_actor|].
    apply rtc_refl.
Qed.

Lemma link_check_available_only_after_ok_confirm_witness :
  available (link_chk (mac world_link_checked)) = true /\
  link_check_confirmed (trace world_link_checked).
Proof.
  split; [reflexivity|].
  destruct (@link_check_available_only_after_ok_confirm scripted _ _)
    as (Hreach & _).
  apply Hreach; [apply world_link_checked_reachable | reflexivity].
Defined.

Lemma recv_outcome_witness :
  exists k,
    eval (semtech_loramac_recv 7) (world0 engine0) = Receive k /\
    eval (k (join_msg SEMTECH_LORAMAC_JOIN_SUCCEEDED)) (world0 engine0)
      = ret8 SEMTECH_LORAMAC_TX_DONE.
Proof.
  destruct (recv_outcome 7 (world0 engine0)) as (k & Hrecv & Hk).
  exists k. split; [unfold eval; by rewrite Hrecv|].
  destruct (Hk (join_msg SEMTECH_LORAMAC_JOIN_SUCCEEDED) (world0 engine0))
    as (r & Hr & _ & _ & _ & Hjoin & _).
  unfold eval. rewrite Hr. apply Hjoin. reflexivity.
Defined.

Lemma send_clears_link_check_first_witness :
  let w := with_mac (set_state SEMTECH_LORAMAC_STATE_BUSY (mac world_link_checked))
                    world_link_checked in
  available (link_chk (mac w)) = true /\
  semtech_loramac_send (Some [1; 2]) 2 w
    = (ret8 SEMTECH_LORAMAC_BUSY, send_prologue w) /\
  available (link_chk (mac (exec (semtech_loramac_send (Some [1; 2]) 2) w)))
    = false.
Proof.
  intros w.
  destruct (send_clears_link_check_first (Some [1; 2]) 2 w)
    as (_ & _ & Hbusy & _ & Hclear).
  split; [reflexivity | split].
  - apply Hbusy; [reflexivity | discriminate].
  - apply Hclear. right. discriminate.
Defined.

(** ** The further properties at work on the scripted engine *)

Lemma busy_only_by_command_witness :
  state (mac (actor_turn
                (exec (msg_send (cmd_msg (call_join (LORAMAC_JOIN_OTHER 5)))
                                semtech_loramac_pid) (world0 engine0))))
    = SEMTECH_LORAMAC_STATE_BUSY /\
  (state (mac (exec (msg_send (cmd_msg (call_join (LORAMAC_JOIN_OTHER 5)))
                              semtech_loramac_pid) (world0 engine0)))
     = SEMTECH_LORAMAC_STATE_BUSY \/
   exists msg q,
     queue semtech_loramac_pid
       (exec (msg_send (cmd_msg (call_join (LORAMAC_JOIN_OTHER 5)))
                       semtech_loramac_pid) (world0 engine0)) = msg :: q /\
     type msg = MSG_TYPE_LORAMAC_CMD).
Proof.
  split; [reflexivity|].
  destruct (@busy_only_by_command scripted _ _) as (_ & Hturn & _).
  apply Hturn. reflexivity.
Defined.

Lemma confirm_outcome_reaches_recv_witness :
  exists w2,
    resume 7 (eval (semtech_loramac_recv 7) (world0 engine0))
      (actor_turn (exec (run_callback (MacMcpsConfirm confirm_unconfirmed_ok))
                        (world_waiting engine0)))
      = Some (ret8 SEMTECH_LORAMAC_TX_DONE, w2).
Proof.
  destruct (confirm_outcome_reaches_recv 7 confirm_unconfirmed_ok
              (world0 engine0) (world_waiting engine0))
    as (Hdone & _); [discriminate | reflexivity | reflexivity | reflexivity |].
  destruct (Hdone eq_refl eq_refl) as [_ Hw]. exact Hw.
Defined.

Lemma received_data_round_trip_witness :
  firstn 3 (rx_payload (rx_data (mac (actor_turn
              (exec (run_callback (MacMcpsIndication downlink))
                    (world_waiting engine0))))))
    = [104; 105; 33] /\
  rx_port (rx_data (mac (actor_turn
              (exec (run_callback (MacMcpsIndication downlink))
                    (world_waiting engine0))))) = 2.
Proof.
  destruct (received_data_round_trip 7 downlink (world0 engine0)
              (world_waiting engine0))
    as (_ & Hrx & _); [discriminate | reflexivity | reflexivity | reflexivity |].
  destruct (Hrx eq_refl eq_refl eq_refl)
    as (_ & (_ & Hport & _ & _ & _ & _ & Hpay) & _).
  split; [|exact Hport].
  destruct Hpay as [Hfirst _]; [simpl; lia|]. exact Hfirst.
Defined.

Lemma schedule_request_flushes_once_witness :
  let w' := exec (loop_body (msg_set_type MSG_TYPE_LORAMAC_TX_SCHEDULE blank_msg))
                 (world_busy engine_rejecting) in
  engine_calls (trace w')
    = [GetDr; QueryTxPossible 0 LORAMAC_STATUS_OK;
       McpsRequest (McpsReq_Unconfirmed 0 None 0 5)
                   LORAMAC_STATUS_DUTYCYCLE_RESTRICTED] /\
  port (mac w') = 2 /\
  state (mac w') = SEMTECH_LORAMAC_STATE_IDLE.
Proof.
  intros w'.
  destruct (schedule_request_flushes_once
              (msg_set_type MSG_TYPE_LORAMAC_TX_SCHEDULE blank_msg)
              (world_busy engine_rejecting) eq_refl)
    as (Hcalls & _ & _ & _ & Hport & _ & _ & Hrej).
  split; [exact Hcalls | split; [exact Hport|]].
  subst w'. rewrite Hrej; [reflexivity | discriminate].
Defined.

Lemma pending_indication_flushes_then_reports_witness :
  exists w2,
    resume 7 (eval (semtech_loramac_recv 7) (world0 engine0))
      (actor_turn (actor_turn
         (exec (run_callback (MacMcpsIndication downlink_pending))
               (world_waiting engine0))))
      = Some (ret8 SEMTECH_LORAMAC_TX_DONE, w2).
Proof.
  destruct (pending_indication_flushes_then_reports 7 (world0 engine0)
              (world_waiting engine0))
    as (Hmcps & _); [discriminate | reflexivity | reflexivity | reflexivity |].
  destruct (Hmcps downlink_pending eq_refl eq_refl eq_refl)
    as (_ & _ & _ & Hw).
  exact Hw.
Defined.

Lemma otaa_join_other_rejection_fails_witness :
  exists w2,
    resume 7 (semtech_loramac_join 7 LORAMAC_JOIN_OTAA (world0 engine_busy_mlme)).1
      (actor_turn
         (semtech_loramac_join 7 LORAMAC_JOIN_OTAA (world0 engine_busy_mlme)).2)
      = Some (ret8 SEMTECH_LORAMAC_JOIN_FAILED, w2) /\
    state (mac w2) = SEMTECH_LORAMAC_STATE_IDLE.
Proof.
  destruct (otaa_join_other_rejection_fails 7 (world0 engine_busy_mlme))
    as [_ Hw];
    [reflexivity | discriminate | reflexivity | reflexivity
    | discriminate | discriminate |].
  exact Hw.
Defined.

Lemma join_unknown_type_leaves_busy_witness :
  state (mac (semtech_loramac_join 7 (LORAMAC_JOIN_OTHER 5) (world0 engine0)).2)
    = SEMTECH_LORAMAC_STATE_BUSY.
Proof.
  destruct (join_unknown_type_leaves_busy 7 5%nat (world0 engine0) eq_refl)
    as (_ & Hbusy & _).
  exact Hbusy.
Defined.


Lemma stale_message_ends_otaa_join_witness :
  exists w2,
    resume 7 (semtech_loramac_join 7 LORAMAC_JOIN_OTAA world_stale).1
             (semtech_loramac_join 7 LORAMAC_JOIN_OTAA world_stale).2
      = Some (5, w2) /\
    state (mac w2) = SEMTECH_LORAMAC_STATE_IDLE.
Proof.
  destruct (stale_message_ends_otaa_join 7 stale_msg [] world_stale)
    as (w2 & Hres & Hst & _);
    [reflexivity | discriminate | reflexivity | reflexivity | reflexivity |].
  exists w2. split; [exact Hres | exact Hst].
Defined.

Lemma abp_join_then_send_is_scheduled_witness :
  eval (semtech_loramac_send (Some [1; 2]) 2)
       (exec (semtech_loramac_join 7 LORAMAC_JOIN_ABP) (world0 engine0))
    = ret8 SEMTECH_LORAMAC_TX_SCHEDULED.
Proof.
  destruct (abp_join_then_send_is_scheduled 7 (Some [1; 2]) 2 (world0 engine0))
    as (_ & _ & Hsend); [intros e; reflexivity | reflexivity |].
  exact Hsend.
Defined.

Lemma devaddr_word_big_endian_witness :
  devaddr_word [38; 1; 2; 3] = 38 * 2 ^ 24 + 1 * 2 ^ 16 + 2 * 2 ^ 8 + 3.
Proof.
  destruct (devaddr_word_big_endian 38 1 2 3) as [Ha _];
    [lia | lia | lia | lia |].
  exact Ha.
Defined.

Lemma link_check_round_trip_witness :
  link_chk (mac (actor_turn
                   (exec (run_callback (MacMlmeConfirm link_check_answer))
                         (world0 engine0))))
    = {| demod_margin := 20; nb_gateways := 2; available := true |}.
Proof.
  destruct (@link_check_round_trip scripted _ _) as [_ Hback].
  destruct (Hback link_check_answer (world0 engine0) eq_refl)
    as [Hlc _]; [split; reflexivity|].
  exact Hlc.
Defined.

Lemma deferred_events_reach_engine_witness :
  engine_calls (trace (actor_turn
                  (exec (_semtech_loramac_event_cb NETDEV_EVENT_RX_TIMEOUT)
                        (world_waiting engine_timeout_script))))
    = [RadioEvent RadioRxTimeout].
Proof.
  destruct (deferred_events_reach_engine (world_waiting engine_timeout_script)
              eq_refl) as ((_ & _ & _ & _ & _ & Hcalls & _) & _).
  exact Hcalls.
Defined.

Lemma adc_sample_time_fills_all_fields_witness :
  SMPR1 (adc_set_sample_time true 4
           {| SMPR0 := 0; SMPR1 := 0; SMPR2 := 0; SMPR3 := 0 |})
    = 613566756 /\
  Z.land (Z.shiftr (SMPR1 (adc_set_sample_time true 4
           {| SMPR0 := 0; SMPR1 := 0; SMPR2 := 0; SMPR3 := 0 |})) (9 * 3)) 7 = 4.
Proof.
  split; [reflexivity|].
  destruct (adc_sample_time_fills_all_fields true 4
              {| SMPR0 := 0; SMPR1 := 0; SMPR2 := 0; SMPR3 := 0 |})
    as (_ & _ & _ & _ & Hfield); [lia|].
  apply Hfield. lia.
Defined.
